(** * WordEmbeddings-GloVe: a shallow embedding of [p3.ipynb]

    The notebook defines three functions over a dictionary of GloVe vectors:
    [load_glove_model], [cosine_similarity] and [find_most_similar].  This
    file embeds them together with the parts of Python and numpy they call,
    and states the properties of the specification over that embedding.

    - numpy [float32] scalars are IEEE-754 binary32 values: [spec_float]
      with precision 24 and maximal exponent 128, rounding to nearest even;
      division by zero yields NaN or an infinity, as numpy does by default;
    - a Python [dict] is an insertion-ordered association list with unique
      keys; assigning to a present key keeps its position;
    - a call either returns a value or raises an exception ([outcome]);
    - the file that [load_glove_model] opens is the list of its lines; the
      two [print] calls of the loader do not touch its result and are left
      out. *)

From Stdlib Require Import ZArith QArith Lqa List String Ascii Bool Lia Permutation Sorted.
From Stdlib Require Import Floats.SpecFloat.
From Stdlib Require Import DecimalString DecimalPos DecimalN Qabs.
Import ListNotations.

Local Open Scope Z_scope.

(** ** Python outcomes *)

Inductive exn : Type :=
| ValueError   (* numpy: bad float literal, shapes not aligned *)
| IndexError   (* list index out of range *)
| KeyError     (* dict lookup of an absent key *)
| TypeError.   (* '<' between None and a number *)

Inductive outcome (A : Type) : Type :=
| Return (a : A)
| Raise (e : exn).

Arguments Return {A} a.
Arguments Raise {A} e.

Definition bind {A B : Type} (m : outcome A) (k : A -> outcome B) : outcome B :=
  match m with
  | Return a => k a
  | Raise e => Raise e
  end.

Notation "x <- m ;; k" := (bind m (fun x => k))
  (at level 61, m at next level, right associativity).

(** ** numpy float32 arithmetic *)

Definition float32 : Type := spec_float.

Module F32.

Definition prec : Z := 24.
Definition emax : Z := 128.

Definition zero : float32 := S754_zero false.
Definition nan : float32 := S754_nan.
Definition one : float32 := S754_finite false 8388608 (-23).

Definition mul : float32 -> float32 -> float32 := SFmul prec emax.
Definition add : float32 -> float32 -> float32 := SFadd prec emax.
Definition div : float32 -> float32 -> float32 := SFdiv prec emax.
Definition sqrt : float32 -> float32 := SFsqrt prec emax.

(** [x < y] and [x <= y] on floats; both are [false] when an operand is NaN. *)
Definition ltb : float32 -> float32 -> bool := SFltb.
Definition leb : float32 -> float32 -> bool := SFleb.

Definition is_nan (x : float32) : bool :=
  match x with S754_nan => true | _ => false end.

Definition is_zero (x : float32) : bool :=
  match x with S754_zero _ => true | _ => false end.

(** The small integer [n] as a float32 (exact for |n| < 2^24). *)
Definition of_Z (n : Z) : float32 := binary_normalize prec emax n 0 false.

End F32.

(** ** numpy one-dimensional float32 arrays *)

Definition ndarray : Type := list float32.

(** The reference loop of [dot] on two arrays of one length:
    [tmp = 0; tmp += a[i] * b[i]].  A BLAS build may add the products in
    another order; the sample vectors below have exact products and sums,
    so their results do not depend on it. *)
Fixpoint dot_loop (tmp : float32) (a b : ndarray) : float32 :=
  match a, b with
  | x :: a', y :: b' => dot_loop (F32.add tmp (F32.mul x y)) a' b'
  | _, _ => tmp
  end.

(** [numpy.dot(a, b)]: arrays of different lengths are "not aligned". *)
Definition dot (a b : ndarray) : outcome float32 :=
  if Nat.eqb (List.length a) (List.length b) then Return (dot_loop F32.zero a b)
  else Raise ValueError.

(** [numpy.linalg.norm(x)] of a one-dimensional real array is
    [sqrt(x.dot(x))]. *)
Definition norm (x : ndarray) : float32 := F32.sqrt (dot_loop F32.zero x x).

(** ** Python dict: insertion-ordered, unique keys *)

Section Dict.
Context {V : Type}.

Definition dict : Type := list (string * V).

Fixpoint dict_get (k : string) (d : dict) : option V :=
  match d with
  | [] => None
  | (k', v) :: d' => if String.eqb k k' then Some v else dict_get k d'
  end.

(** [k in d] *)
Definition contains (k : string) (d : dict) : bool :=
  match dict_get k d with Some _ => true | None => false end.

(** [d[k]] *)
Definition getitem (d : dict) (k : string) : outcome V :=
  match dict_get k d with
  | Some v => Return v
  | None => Raise KeyError
  end.

(** [d[k] = v]: a present key keeps its place, a new key goes last. *)
Fixpoint setitem (k : string) (v : V) (d : dict) : dict :=
  match d with
  | [] => [(k, v)]
  | (k', v') :: d' =>
      if String.eqb k k' then (k', v) :: d' else (k', v') :: setitem k v d'
  end.

(** [d.items()] in iteration order. *)
Definition items (d : dict) : list (string * V) := d.

Definition keys (d : dict) : list string := map fst d.

(** What every dict built by [setitem] from [{}] satisfies. *)
Definition wf_dict (d : dict) : Prop := NoDup (keys d).
End Dict.

Arguments dict V : clear implicits.

(** ** Python text: [str.split()] and [float(str)]

    A [string] is a sequence of code points below 256. *)

Module Py.

Definition code (c : ascii) : Z := Z.of_N (N_of_ascii c).

(** [str.isspace] on one code point: TAB..CR, FS..US, SPACE, NEL, NBSP. *)
Definition isspace (c : ascii) : bool :=
  let n := code c in
  ((9 <=? n) && (n <=? 13)) || ((28 <=? n) && (n <=? 32))
  || (n =? 133) || (n =? 160).

(** [s.split()]: the maximal runs of non-whitespace characters. *)
Fixpoint split (s : string) : list string :=
  match s with
  | EmptyString => []
  | String c s' =>
      if isspace c then split s'
      else
        match s' with
        | EmptyString => [String c EmptyString]
        | String c' _ =>
            if isspace c' then String c EmptyString :: split s'
            else
              match split s' with
              | t :: ts => String c t :: ts
              | [] => [String c EmptyString]
              end
        end
  end.

(** *** Float literals

    [float(str)] accepts
    [[sign] (number [exponent] | "inf" | "infinity" | "nan")] where
    [number] is [[digitpart] "." digitpart | digitpart ["."]] and a
    [digitpart] is digits with single underscores between them; letters
    are matched without regard to case. *)

Definition digit_of (c : ascii) : option Z :=
  let n := code c in
  if (48 <=? n) && (n <=? 57) then Some (n - 48) else None.

Definition lower (c : ascii) : ascii :=
  let n := code c in
  if (65 <=? n) && (n <=? 90) then ascii_of_N (Z.to_N (n + 32)) else c.

Fixpoint lowercase (s : string) : string :=
  match s with
  | EmptyString => EmptyString
  | String c s' => String (lower c) (lowercase s')
  end.

(** Reads [(["_"] digit)*]; returns the number read so far, how many
    digits it has, and the unread rest. *)
Fixpoint digits_tail (acc cnt : Z) (s : string) : Z * Z * string :=
  match s with
  | EmptyString => (acc, cnt, s)
  | String c s' =>
      match digit_of c with
      | Some d => digits_tail (10 * acc + d) (cnt + 1) s'
      | None =>
          if Ascii.eqb c "_" then
            match s' with
            | String c' s'' =>
                match digit_of c' with
                | Some d => digits_tail (10 * acc + d) (cnt + 1) s''
                | None => (acc, cnt, s)
                end
            | EmptyString => (acc, cnt, s)
            end
          else (acc, cnt, s)
      end
  end.

Definition digitpart (acc cnt : Z) (s : string) : option (Z * Z * string) :=
  match s with
  | String c s' =>
      match digit_of c with
      | Some d => Some (digits_tail (10 * acc + d) (cnt + 1) s')
      | None => None
      end
  | EmptyString => None
  end.

(** [number]: the digits as one integer, the count of digits behind the
    point, and the unread rest. *)
Definition number (s : string) : option (Z * Z * string) :=
  match digitpart 0 0 s with
  | Some (m, _, rest) =>
      match rest with
      | String "." rest' =>
          match digitpart m 0 rest' with
          | Some r => Some r
          | None => Some (m, 0, rest')
          end
      | _ => Some (m, 0, rest)
      end
  | None =>
      match s with
      | String "." rest' => digitpart 0 0 rest'
      | _ => None
      end
  end.

Definition signed (s : string) : bool * string :=
  match s with
  | String "+" s' => (false, s')
  | String "-" s' => (true, s')
  | _ => (false, s)
  end.

(** [exponent], or nothing, up to the end of the literal. *)
Definition exponent (s : string) : option Z :=
  match s with
  | EmptyString => Some 0
  | String c s' =>
      if Ascii.eqb (lower c) "e" then
        let '(neg, s'') := signed s' in
        match digitpart 0 0 s'' with
        | Some (e, _, EmptyString) => Some (if neg then - e else e)
        | _ => None
        end
      else None
  end.

(** The quotient [n / d] rounded to nearest even. *)
Definition round_ratio (prec emax : Z) (sign : bool) (n d : Z) : spec_float :=
  let '(q, e, l) := SFdiv_core_binary prec emax n 0 d 0 in
  binary_round_aux prec emax sign q e l.

(** [m * 10^e10] rounded to nearest even, for [m >= 0]. *)
Definition of_decimal (prec emax : Z) (sign : bool) (m e10 : Z) : spec_float :=
  match m with
  | Zpos p =>
      if 0 <=? e10 then binary_round prec emax sign (p * Z.to_pos (10 ^ e10)) 0
      else round_ratio prec emax sign m (10 ^ (- e10))
  | _ => S754_zero sign
  end.

(** [float(s)]: a binary64 value, or [None] where Python raises
    [ValueError]. *)
Definition float (s : string) : option spec_float :=
  let '(neg, body) := signed s in
  let low := lowercase body in
  if String.eqb low "inf" || String.eqb low "infinity" then Some (S754_infinity neg)
  else if String.eqb low "nan" then Some S754_nan
  else
    match number body with
    | Some (m, k, rest) =>
        match exponent rest with
        | Some e => Some (of_decimal 53 1024 neg m (e - k))
        | None => None
        end
    | None => None
    end.

End Py.

(** The C cast of a double to [npy_float]. *)
Definition float32_of_double (x : spec_float) : float32 :=
  match x with
  | S754_finite s m e => binary_round F32.prec F32.emax s m e
  | _ => x
  end.

(** [np.array(tokens, dtype=np.float32)] on a list of strings: each item
    goes through [float()] and is stored as float32; the first item that is
    no float literal raises [ValueError]. *)
Fixpoint np_array_float32 (tokens : list string) : outcome ndarray :=
  match tokens with
  | [] => Return []
  | t :: ts =>
      match Py.float t with
      | Some x => a <- np_array_float32 ts ;; Return (float32_of_double x :: a)
      | None => Raise ValueError
      end
  end.

(** ** The notebook's loader

    [File] is given as the lines that iterating the opened file yields.
    [load_loop] is the [for line in f] loop with [glove_model] as its
    state. *)

Fixpoint load_loop (f : list string) (glove_model : dict ndarray)
  : outcome (dict ndarray) :=
  match f with
  | [] => Return glove_model
  | line :: f' =>
      let split_line := Py.split line in
      match split_line with
      | [] => Raise IndexError
      | word :: rest =>
          embedding <- np_array_float32 rest ;;
          load_loop f' (setitem word embedding glove_model)
      end
  end.

Definition load_glove_model (File : list string) : outcome (dict ndarray) :=
  load_loop File [].

(** ** The notebook's similarity functions *)

(** A Python value that is a float32 or [None]. *)
Definition score : Type := option float32.

Definition cosine_similarity (word1 word2 : string) (glove_vectors : dict ndarray)
  : outcome score :=
  if contains word1 glove_vectors && contains word2 glove_vectors then
    vec1 <- getitem glove_vectors word1 ;;
    vec2 <- getitem glove_vectors word2 ;;
    d <- dot vec1 vec2 ;;
    Return (Some (F32.div d (F32.mul (norm vec1) (norm vec2))))
  else Return None.


(** ['<'] between two values that are a float32 or [None]. *)
Definition score_lt (x y : score) : outcome bool :=
  match x, y with
  | Some a, Some b => Return (F32.ltb a b)
  | _, _ => Raise TypeError
  end.

(** [sorted(l, key=lambda item: item[1], reverse=True)].  Python's sort is
    stable and uses ['<'] on the keys only; with [reverse=True] equal keys
    keep their original order.  It is modelled by stable insertion: an item
    moves behind the items whose key is greater.  Every stable sort gives
    this list when ['<'] totally orders the keys, and also when no test
    succeeds. *)
Fixpoint insert_desc (x : string * score) (l : list (string * score))
  : outcome (list (string * score)) :=
  match l with
  | [] => Return [x]
  | y :: l' =>
      b <- score_lt (snd x) (snd y) ;;
      if b then (r <- insert_desc x l' ;; Return (y :: r)) else Return (x :: l)
  end.

Fixpoint sorted_reverse (l : list (string * score)) : outcome (list (string * score)) :=
  match l with
  | [] => Return []
  | x :: l' => s <- sorted_reverse l' ;; insert_desc x s
  end.

(** [l[:stop]] for a Python int [stop]. *)
Definition slice_to {A : Type} (stop : Z) (l : list A) : list A :=
  let n := Z.of_nat (List.length l) in
  let stop' := if stop <? 0 then Z.max (n + stop) 0 else Z.min stop n in
  firstn (Z.to_nat stop') l.

(** The [for other_word, other_vec in glove_vectors.items()] loop. *)
Fixpoint similarities_loop (word : string) (glove_vectors : dict ndarray)
  (its : list (string * ndarray)) (similarities : dict score) : outcome (dict score) :=
  match its with
  | [] => Return similarities
  | (other_word, other_vec) :: rest =>
      if negb (String.eqb other_word word) then
        similarity <- cosine_similarity word other_word glove_vectors ;;
        similarities_loop word glove_vectors rest
          (setitem other_word similarity similarities)
      else similarities_loop word glove_vectors rest similarities
  end.

(** [top_n] is a Python int; callers that omit it get [top_n_default]. *)
Definition top_n_default : Z := 5.

Definition find_most_similar (word : string) (glove_vectors : dict ndarray) (top_n : Z)
  : outcome (option (list (string * score))) :=
  if negb (contains word glove_vectors) then Return None
  else
    word_vec <- getitem glove_vectors word ;;
    similarities <- similarities_loop word glove_vectors (items glove_vectors) [] ;;
    most_similar <- sorted_reverse (items similarities) ;;
    Return (Some (slice_to top_n most_similar)).

(** ** The notebook's last cell

    The cell under [if __name__ == '__main__'] prints to standard output.
    A computation that prints takes the lines printed so far and returns
    them extended, with its outcome; one [print] call is one entry. *)

Definition stdout : Type := list string.

Definition io (A : Type) : Type := stdout -> stdout * outcome A.

Definition io_return {A : Type} (a : A) : io A := fun out => (out, Return a).

Definition io_bind {A B : Type} (m : io A) (k : A -> io B) : io B :=
  fun out =>
    match m out with
    | (out', Return a) => k a out'
    | (out', Raise e) => (out', Raise e)
    end.

Notation "x <~ m ;; k" := (io_bind m (fun x => k))
  (at level 61, m at next level, right associativity).

Definition print (s : string) : io unit := fun out => (out ++ [s], Return tt).

(** A call that does not print. *)
Definition lift {A : Type} (m : outcome A) : io A := fun out => (out, m).

(** [for x in l: body(x)] *)
Fixpoint for_each {A : Type} (l : list A) (body : A -> io unit) : io unit :=
  match l with
  | [] => io_return tt
  | x :: l' => _ <~ body x ;; for_each l' body
  end.

(** [str(n)] for a non-negative integer. *)
Definition decimal (n : Z) : string := NilZero.string_of_uint (N.to_uint (Z.to_N n)).

Definition digit_char (d : Z) : ascii := ascii_of_N (Z.to_N (48 + d)).

(** The integer nearest to [m * 2^e * 10^4], ties to even. *)
Definition scaled_4f (m : positive) (e : Z) : Z :=
  let n := if 0 <=? e then Zpos m * 2 ^ e else Zpos m in
  let d := if 0 <=? e then 1 else 2 ^ (- e) in
  let q := (n * 10000) / d in
  let r := (n * 10000) mod d in
  if (d <? 2 * r) || ((d =? 2 * r) && Z.odd q) then q + 1 else q.

(** The numeral of [n / 10^4] with four decimals, for [n >= 0]. *)
Definition fixed_4 (n : Z) : string :=
  let f := n mod 10000 in
  (decimal (n / 10000)
   ++ String "." (String (digit_char (f / 1000))
                    (String (digit_char (f / 100 mod 10))
                       (String (digit_char (f / 10 mod 10))
                          (String (digit_char (f mod 10)) EmptyString)))))%string.

Definition sign_text (s : bool) : string := if s then "-" else EmptyString.

(** [format(x, '.4f')] of a float32: the value goes to a Python float
    unchanged and is printed with four decimals, rounded to nearest with
    ties to even. *)
Definition format_4f (x : float32) : string :=
  match x with
  | S754_nan => "nan"
  | S754_infinity s => if s then "-inf" else "inf"
  | S754_zero s => sign_text s ++ fixed_4 0
  | S754_finite s m e => sign_text s ++ fixed_4 (scaled_4f m e)
  end.

(** [f"{s:.4f}"] on a value that may be [None]. *)
Definition format_score (s : score) : outcome string :=
  match s with
  | Some x => Return (format_4f x)
  | None => Raise TypeError
  end.

(** [load_glove_model] together with its two [print] calls. *)
Definition load_glove_model_io (File : list string) : io (dict ndarray) :=
  _ <~ print "Loading GloVe Model" ;;
  glove_model <~ lift (load_loop File []) ;;
  _ <~ print (decimal (Z.of_nat (List.length glove_model)) ++ " words loaded!") ;;
  io_return glove_model.

Definition pairs : list (string * string) :=
  [("cat", "dog"); ("car", "bus"); ("apple", "banana")]%string.

Definition words_to_check : list string := ["king"; "computer"; "university"]%string.

Definition newline : string := String (ascii_of_nat 10) EmptyString.

(** The body of the loop over [pairs]. *)
Definition report_pair (glove_vectors : dict ndarray) (p : string * string) : io unit :=
  let '(word1, word2) := p in
  similarity <~ lift (cosine_similarity word1 word2 glove_vectors) ;;
  match similarity with
  | Some x =>
      print ("Cosine similarity between '" ++ word1 ++ "' and '" ++ word2 ++ "': "
             ++ format_4f x)
  | None =>
      print ("One of the words '" ++ word1 ++ "' or '" ++ word2
             ++ "' is not in the vocabulary.")
  end.

(** The body of the loop over [similar_words]. *)
Definition report_item (item : string * score) : io unit :=
  let '(similar_word, similarity) := item in
  text <~ lift (format_score similarity) ;;
  print (similar_word ++ ": " ++ text).

(** The body of the loop over [words_to_check]. *)
Definition report_word (glove_vectors : dict ndarray) (word : string) : io unit :=
  similar_words <~ lift (find_most_similar word glove_vectors top_n_default) ;;
  match similar_words with
  | Some l =>
      _ <~ print (newline ++ "Top 5 most similar words to '" ++ word ++ "':") ;;
      for_each l report_item
  | None => print ("The word '" ++ word ++ "' is not in the vocabulary.")
  end.

(** The cell, on the lines of [glove.6B.50d.txt]. *)
Definition main (File : list string) : io unit :=
  glove_vectors <~ load_glove_model_io File ;;
  _ <~ for_each pairs (report_pair glove_vectors) ;;
  for_each words_to_check (report_word glove_vectors).

(** ** Vocabulary of the properties *)

(** *** Float values *)

Module F32Facts.

Definition is_finite (x : float32) : bool :=
  match x with S754_zero _ | S754_finite _ _ _ => true | _ => false end.

Definition is_inf (x : float32) : bool :=
  match x with S754_infinity _ => true | _ => false end.

(** The real number a finite float denotes ([0] for the others). *)
Definition value (x : float32) : Q :=
  match x with
  | S754_finite s m e =>
      let n := if s then Zneg m else Zpos m in
      if 0 <=? e then inject_Z (n * 2 ^ e) else (n # Z.to_pos (2 ^ (- e)))%Q
  | _ => 0%Q
  end.

(** A key whose lexicographic order is the order of [SFcompare] on the
    floats that are not NaN. *)
Definition rank (x : float32) : Z * Z * Z :=
  match x with
  | S754_infinity true => (-2, 0, 0)
  | S754_finite true m e => (-1, - e, Zneg m)
  | S754_zero _ => (0, 0, 0)
  | S754_nan => (0, 0, 0)
  | S754_finite false m e => (1, e, Zpos m)
  | S754_infinity false => (2, 0, 0)
  end.

Definition lex_compare (a b : Z * Z * Z) : comparison :=
  let '(a1, a2, a3) := a in
  let '(b1, b2, b3) := b in
  match a1 ?= b1 with
  | Eq => match a2 ?= b2 with Eq => a3 ?= b3 | c => c end
  | c => c
  end.

(** The order of the keys, spelled out over [Z]. *)
Definition lex_le (a b : Z * Z * Z) : Prop :=
  let '(a1, a2, a3) := a in
  let '(b1, b2, b3) := b in
  a1 < b1 \/ (a1 = b1 /\ (a2 < b2 \/ (a2 = b2 /\ a3 <= b3))).

Definition minus_one : float32 := S754_finite true 8388608 (-23).

(** "lies in the closed interval [-1.0, 1.0]": the float is finite and the
    number it denotes is between -1 and 1. *)
Definition in_unit_interval (x : float32) : bool :=
  is_finite x && Qle_bool (- (1)) (value x) && Qle_bool (value x) 1.

End F32Facts.

(** *** Stores *)

(** All vectors of the store have one dimensionality. *)
Definition uniform_dim (d : dict ndarray) : Prop :=
  forall k1 v1 k2 v2, In (k1, v1) d -> In (k2, v2) d -> List.length v1 = List.length v2.

(** The data model's Embedding Store: a dict (unique keys) of vectors of
    one dimensionality. *)
Definition embedding_store (d : dict ndarray) : Prop :=
  wf_dict d /\ uniform_dim d.

Definition vocabulary_size (d : dict ndarray) : Z := Z.of_nat (List.length d).

(** A check that decides [embedding_store] on a concrete store. *)
Fixpoint distinct (l : list string) : bool :=
  match l with
  | [] => true
  | k :: l' => negb (existsb (String.eqb k) l') && distinct l'
  end.

Definition same_dim (d : dict ndarray) : bool :=
  match d with
  | [] => true
  | (_, v0) :: _ => forallb (fun e => Nat.eqb (List.length (snd e)) (List.length v0)) d
  end.

Definition embedding_storeb (d : dict ndarray) : bool := distinct (keys d) && same_dim d.

(** *** Scores and rankings *)

(** The float that [cosine_similarity] computes from two vectors of one
    length. *)
Definition cosine (vec1 vec2 : ndarray) : float32 :=
  F32.div (dot_loop F32.zero vec1 vec2) (F32.mul (norm vec1) (norm vec2)).

(** The candidates of a query with their scores, in store order. *)
Definition candidates (word : string) (word_vec : ndarray) (d : dict ndarray)
  : list (string * score) :=
  map (fun e => (fst e, Some (cosine word_vec (snd e))))
      (filter (fun e => negb (String.eqb (fst e) word)) d).

(** [x >= y] between two scores that are floats. *)
Definition score_ge (x y : string * score) : Prop :=
  match snd x, snd y with
  | Some a, Some b => F32.leb b a = true
  | _, _ => False
  end.

(** Each pair's score is at least the score of every later pair. *)
Definition non_increasing (r : list (string * score)) : Prop :=
  StronglySorted score_ge r.

(** The items whose score is a float other than NaN. *)
Definition plain (x : string * score) : Prop :=
  exists a, snd x = Some a /\ F32.is_nan a = false.

Definition has_float (x : string * score) : Prop := exists a, snd x = Some a.

(** No candidate of the query gets NaN as its score. *)
Definition nan_free (word : string) (d : dict ndarray) : bool :=
  forallb (fun e => match cosine_similarity word (fst e) d with
                    | Return (Some x) => negb (F32.is_nan x)
                    | _ => true
                    end)
          (filter (fun e => negb (String.eqb (fst e) word)) d).

(** What the ranking promises for one query. *)
Definition ranked_result (word : string) (d : dict ndarray) (top_n : Z)
  (r : list (string * score)) : Prop :=
  Z.of_nat (List.length r) = Z.min top_n (vocabulary_size d - 1)
  /\ non_increasing r
  /\ ~ In word (map fst r).

(** *** Exact arithmetic *)

(** The dot product of the real numbers two float vectors denote. *)
Fixpoint dotQ (a b : ndarray) : Q :=
  match a, b with
  | x :: a', y :: b' => (F32Facts.value x * F32Facts.value y + dotQ a' b')%Q
  | _, _ => 0%Q
  end.

(** [d] is finite and its magnitude is at most [m], a finite positive
    float; the floats are compared on the numbers they denote. *)
Definition within (d m : float32) : bool :=
  F32Facts.is_finite d && F32Facts.is_finite m
  && negb (Qle_bool (F32Facts.value m) 0)
  && Qle_bool (- F32Facts.value m) (F32Facts.value d)
  && Qle_bool (F32Facts.value d) (F32Facts.value m).

(** The float32 dot product of the two vectors is within the float32
    product of their norms. *)
Definition dot_within_norms (vec1 vec2 : ndarray) : bool :=
  within (dot_loop F32.zero vec1 vec2) (F32.mul (norm vec1) (norm vec2)).

(** The dot product, the norms and the product of the norms are computed
    without rounding or overflow, and the product is positive. *)
Definition exact_inputs (vec1 vec2 : ndarray) : bool :=
  let d := dot_loop F32.zero vec1 vec2 in
  let n1 := norm vec1 in
  let n2 := norm vec2 in
  let m := F32.mul n1 n2 in
  F32Facts.is_finite d && F32Facts.is_finite m
  && Qeq_bool (F32Facts.value d) (dotQ vec1 vec2)
  && Qeq_bool (F32Facts.value n1 * F32Facts.value n1) (dotQ vec1 vec1)
  && Qeq_bool (F32Facts.value n2 * F32Facts.value n2) (dotQ vec2 vec2)
  && Qeq_bool (F32Facts.value m) (F32Facts.value n1 * F32Facts.value n2)
  && negb (Qle_bool (F32Facts.value m) 0).

(** *** Rounding *)

(** [mrs] is what [k] right shifts leave of the integer [m0]: the high
    bits, and cleared round and sticky bits when nothing was lost. *)
Definition shifted (exact : bool) (m0 k : Z) (mrs : shr_record) : Prop :=
  shr_m mrs = m0 / 2 ^ k
  /\ (exact = true -> m0 mod 2 ^ k = 0 -> shr_r mrs = false /\ shr_s mrs = false).

(** A float of sign [s] and of magnitude at most one. *)
Definition at_most_one (s : bool) (x : float32) : Prop :=
  match x with
  | S754_zero s' => s' = s
  | S754_finite s' m e => s' = s /\ e <= 0 /\ Zpos m <= 2 ^ (- e)
  | _ => False
  end.

(** *** Input lines *)

Fixpoint whitespace_only (s : string) : bool :=
  match s with
  | EmptyString => true
  | String c s' => Py.isspace c && whitespace_only s'
  end.

(** A token that [float()] rejects. *)
Definition non_numeric (t : string) : Prop := Py.float t = None.

(** The line has a word and only float literals behind it. *)
Definition line_ok (line : string) : bool :=
  match Py.split line with
  | [] => false
  | _ :: rest =>
      forallb (fun t => match Py.float t with Some _ => true | None => false end) rest
  end.

(** The word of a line, if it has one. *)
Definition line_word (line : string) : option string := hd_error (Py.split line).

(** *** Words of a file *)

(** The words that head the lines, in line order. *)
Definition line_words (lines : list string) : list string :=
  flat_map (fun line => match Py.split line with w :: _ => [w] | [] => [] end) lines.

(** The words of [ws] that are not in [seen], each at its first place. *)
Fixpoint first_occurrences (seen ws : list string) : list string :=
  match ws with
  | [] => []
  | w :: ws' =>
      if existsb (String.eqb w) seen then first_occurrences seen ws'
      else w :: first_occurrences (seen ++ [w]) ws'
  end.

(** No character of the string is whitespace. *)
Fixpoint no_space (s : string) : bool :=
  match s with
  | EmptyString => true
  | String c s' => negb (Py.isspace c) && no_space s'
  end.

(** Every line has [n] tokens behind its word. *)
Definition token_count (n : nat) (lines : list string) : bool :=
  forallb (fun line => Nat.eqb (List.length (Py.split line)) (S n)) lines.

(** Some vector of the dict, not the one of [word], has another length
    than [word_vec]. *)
Definition mismatched (word : string) (word_vec : ndarray) (d : dict ndarray) : bool :=
  existsb (fun e => negb (String.eqb (fst e) word)
                    && negb (Nat.eqb (List.length (snd e)) (List.length word_vec))) d.

(** *** What the last cell prints *)

(** The number of lines the cell prints for one word of [words_to_check]:
    one line when the word is missing, else a heading and the ranking. *)
Definition word_report_size (d : dict ndarray) (word : string) : Z :=
  if contains word d then 1 + Z.min top_n_default (vocabulary_size d - 1) else 1.

(** The number of lines printed after the loader's two. *)
Definition reports_size (d : dict ndarray) : Z :=
  Z.of_nat (List.length pairs)
  + fold_right Z.add 0 (map (word_report_size d) words_to_check).

(** *** Decimal numerals *)

(** The number that the digits of [u] denote behind the digits read as
    [acc]. *)
Fixpoint uint_value (u : Decimal.uint) (acc : Z) : Z :=
  match u with
  | Decimal.Nil => acc
  | Decimal.D0 u' => uint_value u' (10 * acc)
  | Decimal.D1 u' => uint_value u' (10 * acc + 1)
  | Decimal.D2 u' => uint_value u' (10 * acc + 2)
  | Decimal.D3 u' => uint_value u' (10 * acc + 3)
  | Decimal.D4 u' => uint_value u' (10 * acc + 4)
  | Decimal.D5 u' => uint_value u' (10 * acc + 5)
  | Decimal.D6 u' => uint_value u' (10 * acc + 6)
  | Decimal.D7 u' => uint_value u' (10 * acc + 7)
  | Decimal.D8 u' => uint_value u' (10 * acc + 8)
  | Decimal.D9 u' => uint_value u' (10 * acc + 9)
  end.

(** *** Order in a list *)

(** [a] stands at some place of [l] with [b] somewhere behind it. *)
Fixpoint listed_before {A : Type} (a b : A) (l : list A) : Prop :=
  match l with
  | [] => False
  | x :: l' => (x = a /\ In b l') \/ listed_before a b l'
  end.

(** The float is NaN or has a clear sign bit. *)
Definition sign_clear (x : float32) : bool :=
  match x with
  | S754_zero s | S754_infinity s | S754_finite s _ _ => negb s
  | S754_nan => true
  end.

(** *** Sample stores *)

(** A vector with small integer components. *)
Definition vec (l : list Z) : ndarray := map F32.of_Z l.

(** Two-dimensional: two equal vectors, a zero vector, and two others. *)
Definition store_2d : dict ndarray :=
  [("a"%string, vec [1; 1]); ("b"%string, vec [1; 1]); ("z"%string, vec [0; 0]);
   ("c"%string, vec [3; 4]); ("d"%string, vec [4; 3])].

(** One-dimensional, with a zero vector between two opposite vectors. *)
Definition store_1d : dict ndarray :=
  [("q"%string, vec [1]); ("a"%string, vec [-1]); ("z"%string, vec [0]);
   ("b"%string, vec [1])].

(** The store of the specification's scenario, scaled to integers. *)
Definition store_3d : dict ndarray :=
  [("cat"%string, vec [1; 0; 0]); ("dog"%string, vec [9; 1; 0]);
   ("car"%string, vec [0; 1; 0])].

(** Two-dimensional, with two candidates of one score for the query "q". *)
Definition store_ties : dict ndarray :=
  [("q"%string, vec [1; 0]); ("x"%string, vec [0; 1]); ("y"%string, vec [0; 2]);
   ("w"%string, vec [2; 0])].

(** The store that the lines of the specification's scenario give:
    "dog" holds the floats nearest to 0.9 and 0.1. *)
Definition store_scenario : dict ndarray :=
  [("cat"%string, [F32.one; F32.zero; F32.zero]);
   ("dog"%string, [S754_finite false 15099494 (-24); S754_finite false 13421773 (-27);
                   F32.zero]);
   ("car"%string, [F32.zero; F32.one; F32.zero])].

(** *** Sample inputs *)

(** The line with the text [s], as file iteration yields it. *)
Definition text_line (s : string) : string := s ++ String (ascii_of_nat 10) EmptyString.

Definition lines_apple : list string :=
  [text_line "apple 1 0"; text_line "apple 0 1"].

Definition lines_blank : list string :=
  [text_line "apple 1 0"; text_line "  "; text_line "pear 0 1"].

Definition lines_ragged : list string :=
  [text_line "a 1 0"; text_line "b 1"].

(** The three lines of the specification's cat, dog and car scenario. *)
Definition lines_scenario : list string :=
  [text_line "cat 1 0 0"; text_line "dog 0.9 0.1 0"; text_line "car 0 1 0"].

(** * Properties *)

(** ** Float32 facts *)

Section Float32Order.
Import F32Facts.

Lemma mul_comm (x y : float32) : F32.mul x y = F32.mul y x.
Proof.
  unfold F32.mul.
  destruct x as [sx | sx | | sx mx ex], y as [sy | sy | | sy my ey]; simpl;
    try rewrite (xorb_comm sx sy); try reflexivity.
  now rewrite (Pos.mul_comm mx my), (Z.add_comm ex ey).
Qed.

Lemma compare_rank (x y : float32) :
  F32.is_nan x = false -> F32.is_nan y = false ->
  SFcompare x y = Some (lex_compare (rank x) (rank y)).
Proof.
  intros Hx Hy.
  destruct x as [sx | sx | | sx mx ex], y as [sy | sy | | sy my ey];
    try discriminate; try destruct sx; try destruct sy; try reflexivity;
    cbn [SFcompare rank lex_compare Z.compare Pos.compare Pos.compare_cont].
  rewrite Z.compare_opp, (Z.compare_antisym ex ey).
  destruct (ex ?= ey); reflexivity.
Qed.

Lemma lex_compare_le (a b : Z * Z * Z) : lex_compare a b <> Gt <-> lex_le a b.
Proof.
  destruct a as [[a1 a2] a3], b as [[b1 b2] b3]; unfold lex_compare, lex_le.
  destruct (Z.compare_spec a1 b1); [destruct (Z.compare_spec a2 b2);
    [destruct (Z.compare_spec a3 b3) | | ] | | ];
    split; intros; try lia; try congruence.
Qed.

Lemma lex_compare_lt (a b : Z * Z * Z) : lex_compare a b = Lt -> lex_le a b.
Proof. intros H. apply lex_compare_le. congruence. Qed.

Lemma lex_le_total (a b : Z * Z * Z) : lex_le a b \/ lex_le b a.
Proof.
  destruct a as [[a1 a2] a3], b as [[b1 b2] b3]; unfold lex_le. lia.
Qed.

Lemma lex_le_trans (a b c : Z * Z * Z) : lex_le a b -> lex_le b c -> lex_le a c.
Proof.
  destruct a as [[a1 a2] a3], b as [[b1 b2] b3], c as [[c1 c2] c3];
    unfold lex_le. lia.
Qed.

Lemma leb_not_nan (x y : float32) :
  F32.leb x y = true -> F32.is_nan x = false /\ F32.is_nan y = false.
Proof.
  unfold F32.leb, SFleb.
  destruct x as [sx | sx | | sx mx ex], y as [sy | sy | | sy my ey];
    simpl; intros H; try discriminate; auto.
Qed.

Lemma leb_rank (x y : float32) :
  F32.leb x y = true <->
  F32.is_nan x = false /\ F32.is_nan y = false /\ lex_le (rank x) (rank y).
Proof.
  split.
  - intros H. destruct (leb_not_nan _ _ H) as [Hx Hy].
    repeat split; trivial. apply lex_compare_le.
    unfold F32.leb, SFleb in H. rewrite (compare_rank _ _ Hx Hy) in H.
    destruct (lex_compare (rank x) (rank y)); congruence.
  - intros (Hx & Hy & H). apply lex_compare_le in H.
    unfold F32.leb, SFleb. rewrite (compare_rank _ _ Hx Hy).
    destruct (lex_compare (rank x) (rank y)); congruence.
Qed.

Lemma ltb_leb (x y : float32) : F32.ltb x y = true -> F32.leb x y = true.
Proof.
  unfold F32.ltb, F32.leb, SFltb, SFleb.
  destruct (SFcompare x y) as [[ | | ] | ]; congruence.
Qed.

Lemma not_ltb_leb (x y : float32) :
  F32.is_nan x = false -> F32.is_nan y = false ->
  F32.ltb x y = false -> F32.leb y x = true.
Proof.
  intros Hx Hy H. apply leb_rank. repeat split; trivial.
  destruct (lex_le_total (rank y) (rank x)) as [Hle | Hle]; trivial.
  unfold F32.ltb, SFltb in H. rewrite (compare_rank _ _ Hx Hy) in H.
  destruct (lex_compare (rank x) (rank y)) eqn:E; try discriminate.
  - assert (Hge : lex_compare (rank x) (rank y) <> Gt) by congruence.
    destruct (rank x) as [[a1 a2] a3], (rank y) as [[b1 b2] b3].
    unfold lex_compare in E. unfold lex_le.
    destruct (Z.compare_spec a1 b1); try discriminate.
    destruct (Z.compare_spec a2 b2); try discriminate.
    apply Z.compare_eq in E. lia.
  - exfalso. apply lex_compare_le in Hle. congruence.
Qed.

Lemma leb_trans (x y z : float32) :
  F32.leb x y = true -> F32.leb y z = true -> F32.leb x z = true.
Proof.
  rewrite !leb_rank. intros (Hx & _ & H1) (_ & Hz & H2).
  repeat split; trivial. eapply lex_le_trans; eassumption.
Qed.

End Float32Order.

(** ** Dict facts *)

Section DictFacts.
Context {V : Type}.
Implicit Types (d : dict V) (k : string) (v : V).

Lemma dict_get_In d k v : dict_get k d = Some v -> In (k, v) d.
Proof.
  induction d as [ | [k' v'] d IH]; simpl; [discriminate | ].
  destruct (String.eqb_spec k k') as [-> | Hne]; intros H.
  - injection H as ->. now left.
  - right. now apply IH.
Qed.

Lemma dict_get_None d k : dict_get k d = None <-> ~ In k (keys d).
Proof.
  induction d as [ | [k' v'] d IH]; simpl; [tauto | ].
  destruct (String.eqb_spec k k') as [-> | Hne].
  - split; [discriminate | intros H; exfalso; apply H; now left].
  - rewrite IH. unfold keys. simpl. intuition congruence.
Qed.

Lemma In_dict_get d k v : wf_dict d -> In (k, v) d -> dict_get k d = Some v.
Proof.
  unfold wf_dict, keys.
  induction d as [ | [k' v'] d IH]; simpl; [tauto | ].
  intros Hnd [E | HIn]; inversion Hnd as [ | ? ? Hk Hd]; subst.
  - injection E as -> ->. now rewrite String.eqb_refl.
  - destruct (String.eqb_spec k k') as [-> | Hne]; [ | now apply IH].
    exfalso. apply Hk. change k' with (fst (k', v)). now apply in_map.
Qed.

Lemma contains_true d k : contains k d = true <-> exists v, dict_get k d = Some v.
Proof.
  unfold contains. destruct (dict_get k d) as [v | ].
  - split; eauto.
  - split; [discriminate | intros [v H]; discriminate].
Qed.

Lemma contains_false d k : contains k d = false <-> dict_get k d = None.
Proof.
  unfold contains. destruct (dict_get k d); split; congruence.
Qed.

Lemma setitem_fresh d k v : dict_get k d = None -> setitem k v d = d ++ [(k, v)].
Proof.
  induction d as [ | [k' v'] d IH]; simpl; [reflexivity | ].
  destruct (String.eqb k k'); [discriminate | ].
  intros H. now rewrite IH.
Qed.

Lemma keys_setitem_present d k v :
  dict_get k d <> None -> keys (setitem k v d) = keys d.
Proof.
  induction d as [ | [k' v'] d IH]; simpl; [congruence | ].
  destruct (String.eqb k k'); simpl; [reflexivity | ].
  intros H. now rewrite IH.
Qed.

Lemma wf_setitem d k v : wf_dict d -> wf_dict (setitem k v d).
Proof.
  intros Hd. destruct (dict_get k d) eqn:E.
  - unfold wf_dict. rewrite keys_setitem_present; [assumption | congruence].
  - rewrite setitem_fresh by assumption. unfold wf_dict, keys in *.
    rewrite map_app. simpl. apply NoDup_app; trivial.
    + apply NoDup_cons; [simpl; tauto | constructor].
    + intros x Hx [<- | []]. now apply dict_get_None in E.
Qed.

Lemma dict_get_setitem d k k' v :
  dict_get k' (setitem k v d) = if String.eqb k' k then Some v else dict_get k' d.
Proof.
  induction d as [ | [k0 v0] d IH]; simpl.
  - now destruct (String.eqb k' k).
  - destruct (String.eqb_spec k k0) as [-> | Hne]; simpl.
    + now destruct (String.eqb k' k0).
    + rewrite IH. destruct (String.eqb_spec k' k0) as [-> | Hne']; trivial.
      destruct (String.eqb_spec k0 k); congruence.
Qed.

End DictFacts.

(** ** Pairwise similarity *)

Lemma dot_loop_comm (a b : ndarray) :
  forall tmp, dot_loop tmp a b = dot_loop tmp b a.
Proof.
  revert b. induction a as [ | x a IH]; intros [ | y b] tmp; simpl; trivial.
  now rewrite (mul_comm x y), IH.
Qed.

Lemma dot_comm (a b : ndarray) : dot a b = dot b a.
Proof.
  unfold dot. rewrite (Nat.eqb_sym (List.length a)), dot_loop_comm. reflexivity.
Qed.

Lemma cosine_comm (a b : ndarray) : cosine a b = cosine b a.
Proof.
  unfold cosine. now rewrite dot_loop_comm, (mul_comm (norm a)).
Qed.

(** What the call computes once both lookups succeed. *)
Lemma cosine_similarity_present (d : dict ndarray) (w1 w2 : string) (a b : ndarray) :
  dict_get w1 d = Some a -> dict_get w2 d = Some b ->
  cosine_similarity w1 w2 d =
  if Nat.eqb (List.length a) (List.length b) then Return (Some (cosine a b))
  else Raise ValueError.
Proof.
  intros Ha Hb. unfold cosine_similarity, contains, getitem, dot.
  rewrite Ha, Hb. simpl.
  destruct (Nat.eqb (List.length a) (List.length b)); reflexivity.
Qed.

(** C2. A query that names a word absent from the store gets [None] from
    [cosine_similarity], and [find_most_similar] on an absent word returns
    [None] too; neither raises. *)
Theorem absent_word_not_found (store : dict ndarray) (word1 word2 : string) (top_n : Z) :
  contains word1 store = false \/ contains word2 store = false ->
  cosine_similarity word1 word2 store = Return None
  /\ (contains word1 store = false -> find_most_similar word1 store top_n = Return None).
Proof.
  intros H. split.
  - unfold cosine_similarity.
    destruct H as [-> | ->]; [ | rewrite andb_false_r]; reflexivity.
  - intros H1. unfold find_most_similar. now rewrite H1.
Qed.

Lemma absent_word_not_found_witness :
  cosine_similarity "cat" "bird" store_3d = Return None
  /\ (contains "bird" store_3d = false -> find_most_similar "bird" store_3d 5 = Return None).
Proof.
  split.
  - apply (absent_word_not_found store_3d "cat" "bird" 5). right. reflexivity.
  - apply (absent_word_not_found store_3d "bird" "cat" 5). left. reflexivity.
Defined.

(** C7. For two words of the store, [cosine_similarity] gives the same
    outcome in either argument order. *)
Theorem cosine_similarity_symmetric (store : dict ndarray) (a b : string) :
  contains a store = true -> contains b store = true ->
  cosine_similarity a b store = cosine_similarity b a store.
Proof.
  intros Ha Hb.
  apply contains_true in Ha as [va Ha]. apply contains_true in Hb as [vb Hb].
  rewrite (cosine_similarity_present _ _ _ _ _ Ha Hb).
  rewrite (cosine_similarity_present _ _ _ _ _ Hb Ha).
  now rewrite cosine_comm, (Nat.eqb_sym (List.length va)).
Qed.

Lemma cosine_similarity_symmetric_witness :
  cosine_similarity "cat" "dog" store_3d = cosine_similarity "dog" "cat" store_3d.
Proof.
  apply (cosine_similarity_symmetric store_3d "cat" "dog"); reflexivity.
Defined.

(** A vector whose components are all zero has norm [+0]. *)
Lemma zero_vector_norm (a : ndarray) :
  forallb F32.is_zero a = true -> norm a = F32.zero.
Proof.
  unfold norm. assert (H : forall b, forallb F32.is_zero b = true ->
                                dot_loop F32.zero b b = F32.zero).
  { induction b as [ | x b IH]; simpl; trivial.
    intros Hb. apply andb_prop in Hb as [Hx Hb].
    destruct x as [[ | ] | | | ]; try discriminate; simpl; auto. }
  intros Ha. now rewrite H.
Qed.

(** C3 (amended). When the norm of either vector is zero, [cosine_similarity]
    still divides: it returns a float, and that float is NaN or an
    infinity. *)
Theorem zero_norm_similarity (store : dict ndarray) (word1 word2 : string)
  (vec1 vec2 : ndarray) :
  getitem store word1 = Return vec1 -> getitem store word2 = Return vec2 ->
  List.length vec1 = List.length vec2 ->
  F32.is_zero (norm vec1) || F32.is_zero (norm vec2) = true ->
  exists s, cosine_similarity word1 word2 store = Return (Some s)
            /\ F32.is_nan s || F32Facts.is_inf s = true.
Proof.
  unfold getitem. intros H1 H2 Hlen Hz.
  destruct (dict_get word1 store) as [a | ] eqn:Ha; [ | discriminate].
  destruct (dict_get word2 store) as [b | ] eqn:Hb; [ | discriminate].
  injection H1 as ->. injection H2 as ->.
  rewrite (cosine_similarity_present _ _ _ _ _ Ha Hb), Hlen, Nat.eqb_refl.
  eexists. split; [reflexivity | ].
  unfold cosine, F32.div, F32.mul.
  destruct (dot_loop F32.zero vec1 vec2) as [sd | sd | | sd md ed];
    destruct (norm vec1) as [s1 | s1 | | s1 m1 e1];
    destruct (norm vec2) as [s2 | s2 | | s2 m2 e2];
    try discriminate; reflexivity.
Qed.

Lemma zero_norm_similarity_witness :
  exists s, cosine_similarity "a" "z" store_2d = Return (Some s)
            /\ F32.is_nan s || F32Facts.is_inf s = true.
Proof.
  apply (zero_norm_similarity store_2d "a" "z" (vec [1; 1]) (vec [0; 0]));
    reflexivity.
Defined.

(** C3 fails as stated: the vector of "z" has norm zero, and the call
    returns the float NaN as its score, the same kind of outcome as any
    other score. *)
Lemma zero_norm_not_signalled :
  norm (vec [0; 0]) = F32.zero
  /\ getitem store_2d "z" = Return (vec [0; 0])
  /\ cosine_similarity "a" "z" store_2d = Return (Some F32.nan).
Proof. repeat split. Qed.

(** ** Ranking *)

Lemma score_ge_trans (x y z : string * score) :
  score_ge x y -> score_ge y z -> score_ge x z.
Proof.
  unfold score_ge.
  destruct (snd x), (snd y), (snd z); try tauto.
  intros H1 H2. eapply leb_trans; eassumption.
Qed.

Lemma insert_desc_returns (x : string * score) (l : list (string * score)) :
  has_float x -> Forall has_float l ->
  exists r, insert_desc x l = Return r /\ Permutation (x :: l) r.
Proof.
  intros [a Ha] Hl. induction Hl as [ | y l [b Hb] Hl IH]; simpl.
  - eexists. split; [reflexivity | apply Permutation_refl].
  - rewrite Ha, Hb. simpl. destruct (F32.ltb a b).
    + destruct IH as (r & -> & Hp). simpl. eexists. split; [reflexivity | ].
      eapply perm_trans; [apply perm_swap | now apply perm_skip].
    + eexists. split; [reflexivity | apply Permutation_refl].
Qed.

Lemma insert_desc_sorted (x : string * score) (l r : list (string * score)) :
  plain x -> Forall plain l -> non_increasing l ->
  insert_desc x l = Return r -> non_increasing r.
Proof.
  unfold non_increasing. intros [a [Ha Hna]] Hl Hs. revert r.
  induction Hs as [ | y l Hs IH Hy]; simpl; intros r Hr.
  - injection Hr as <-. repeat constructor.
  - inversion Hl as [ | ? ? [b [Hb Hnb]] Hl']; subst.
    rewrite Ha, Hb in Hr. simpl in Hr.
    destruct (F32.ltb a b) eqn:Hlt.
    + destruct (insert_desc x l) as [r' | ] eqn:Hins; [ | discriminate].
      simpl in Hr. injection Hr as <-. constructor; [now apply IH | ].
      assert (Hp : Permutation (x :: l) r').
      { destruct (insert_desc_returns x l) as (r'' & Hr'' & Hp).
        - now exists a.
        - eapply Forall_impl; [ | exact Hl']. intros z [c [Hc _]]. now exists c.
        - congruence. }
      eapply Permutation_Forall; [exact Hp | ]. constructor; [ | exact Hy].
      unfold score_ge. rewrite Ha, Hb. now apply ltb_leb.
    + injection Hr as <-. constructor; [now constructor | ].
      assert (Hxy : score_ge x y).
      { unfold score_ge. rewrite Ha, Hb. now apply not_ltb_leb. }
      constructor; [exact Hxy | ].
      eapply Forall_impl; [ | exact Hy]. intros z Hz.
      eapply score_ge_trans; eassumption.
Qed.

Lemma sorted_reverse_returns (l : list (string * score)) :
  Forall has_float l ->
  exists r, sorted_reverse l = Return r /\ Permutation l r.
Proof.
  induction 1 as [ | x l Hx Hl IH]; simpl.
  - eexists. split; [reflexivity | constructor].
  - destruct IH as (s & -> & Hp). simpl.
    destruct (insert_desc_returns x s Hx) as (r & Hr & Hp').
    + eapply Permutation_Forall; eassumption.
    + exists r. split; [exact Hr | ].
      eapply perm_trans; [apply perm_skip, Hp | exact Hp'].
Qed.

Lemma plain_has_float (l : list (string * score)) : Forall plain l -> Forall has_float l.
Proof.
  apply Forall_impl. intros z [c [Hc _]]. now exists c.
Qed.

Lemma sorted_reverse_sorted (l r : list (string * score)) :
  Forall plain l -> sorted_reverse l = Return r -> non_increasing r.
Proof.
  intros Hl. revert r. induction Hl as [ | x l Hx Hl IH]; simpl; intros r Hr.
  - injection Hr as <-. constructor.
  - destruct (sorted_reverse_returns l (plain_has_float l Hl)) as (s & Hs & Hp).
    rewrite Hs in Hr. simpl in Hr.
    eapply insert_desc_sorted; [exact Hx | | apply IH, Hs | exact Hr].
    eapply Permutation_Forall; eassumption.
Qed.

Lemma slice_to_length {A : Type} (stop : Z) (l : list A) :
  0 <= stop -> Z.of_nat (List.length (slice_to stop l)) = Z.min stop (Z.of_nat (List.length l)).
Proof.
  intros H. unfold slice_to.
  destruct (Z.ltb_spec stop 0); [lia | ].
  rewrite length_firstn. lia.
Qed.

Lemma firstn_In {A : Type} (n : nat) (l : list A) (x : A) :
  In x (firstn n l) -> In x l.
Proof.
  intros H. rewrite <- (firstn_skipn n l). apply in_or_app. now left.
Qed.

Lemma slice_to_incl {A : Type} (stop : Z) (l : list A) (x : A) :
  In x (slice_to stop l) -> In x l.
Proof. unfold slice_to. apply firstn_In. Qed.

Lemma slice_to_all {A : Type} (stop : Z) (l : list A) :
  Z.of_nat (List.length l) <= stop -> slice_to stop l = l.
Proof.
  intros H. unfold slice_to.
  destruct (Z.ltb_spec stop 0); [lia | ].
  apply firstn_all2. lia.
Qed.

Lemma firstn_sorted (n : nat) (l : list (string * score)) :
  non_increasing l -> non_increasing (firstn n l).
Proof.
  unfold non_increasing. intros H. revert n.
  induction H as [ | x l Hl IH Hx]; intros [ | n]; simpl; try constructor.
  - apply IH.
  - rewrite Forall_forall in *. intros y Hy. apply Hx. eapply firstn_In, Hy.
Qed.

Lemma candidates_keys (word : string) (wv : ndarray) (d : dict ndarray) :
  map fst (candidates word wv d)
  = filter (fun k => negb (String.eqb k word)) (keys d).
Proof.
  unfold candidates, keys. induction d as [ | [k x] d IH]; simpl; trivial.
  destruct (String.eqb k word); simpl; now rewrite IH.
Qed.

Lemma filter_out_length (word : string) (l : list string) :
  NoDup l -> In word l ->
  S (List.length (filter (fun k => negb (String.eqb k word)) l)) = List.length l.
Proof.
  induction 1 as [ | k l Hk Hnd IH]; intros Hx; [destruct Hx | ]. simpl.
  destruct (String.eqb_spec k word) as [-> | Hne]; simpl.
  - f_equal. f_equal. clear -Hk. induction l as [ | k l IH]; simpl; trivial.
    destruct (String.eqb_spec k word) as [-> | Hne]; simpl.
    + exfalso. apply Hk. now left.
    + f_equal. apply IH. intros H. apply Hk. now right.
  - destruct Hx as [E | Hx]; [congruence | ]. now rewrite IH.
Qed.

Lemma candidates_length (word : string) (wv : ndarray) (d : dict ndarray) :
  wf_dict d -> contains word d = true ->
  Z.of_nat (List.length (candidates word wv d)) = vocabulary_size d - 1.
Proof.
  unfold vocabulary_size. rewrite <- (length_map fst (candidates word wv d)).
  rewrite candidates_keys. intros Hnd Hin.
  apply contains_true in Hin as [x Hx]. apply dict_get_In in Hx.
  apply (in_map fst) in Hx. simpl in Hx. fold (keys d) in Hx.
  rewrite <- (length_map fst d). fold (keys d).
  rewrite <- (filter_out_length word (keys d) Hnd Hx). lia.
Qed.

(** The loop appends one scored pair per candidate, in store order. *)
Lemma similarities_loop_candidates (word : string) (wv : ndarray) (d : dict ndarray) :
  embedding_store d -> dict_get word d = Some wv ->
  forall its acc,
    incl its d -> wf_dict its ->
    (forall k, In k (keys its) -> dict_get k acc = None) ->
    similarities_loop word d its acc = Return (acc ++ candidates word wv its).
Proof.
  intros [Hwf Hdim] Hw. induction its as [ | [w x] its IH]; intros acc Hincl Hnd Hacc.
  - simpl. now rewrite app_nil_r.
  - unfold wf_dict, keys in Hnd. simpl in Hnd. inversion Hnd as [ | ? ? Hk Hnd']; subst.
    assert (Hin : In (w, x) d) by (apply Hincl; now left).
    assert (Hincl' : incl its d) by (intros e He; apply Hincl; now right).
    unfold candidates. simpl.
    destruct (String.eqb w word) eqn:E; simpl.
    + apply IH; trivial. intros k Hk'. apply Hacc. now right.
    + rewrite (cosine_similarity_present d word w wv x Hw (In_dict_get d w x Hwf Hin)).
      rewrite (Hdim word wv w x (dict_get_In _ _ _ Hw) Hin), Nat.eqb_refl. simpl.
      rewrite setitem_fresh by (apply Hacc; now left).
      fold (candidates word wv its). rewrite IH; trivial.
      * now rewrite <- app_assoc.
      * intros k Hk'. apply dict_get_None. unfold keys. rewrite map_app. simpl.
        intros Hin'. apply in_app_or in Hin' as [Hin' | [<- | []]].
        -- assert (Hn : dict_get k acc = None) by (apply Hacc; now right).
           now apply dict_get_None in Hn.
        -- now apply Hk.
Qed.

Lemma candidates_have_float (word : string) (wv : ndarray) (d : dict ndarray) :
  Forall has_float (candidates word wv d).
Proof.
  unfold candidates. apply Forall_forall. intros e He.
  apply in_map_iff in He as (e' & <- & _). now eexists.
Qed.

(** What a query on a present word of an Embedding Store returns. *)
Lemma find_most_similar_spec (word : string) (wv : ndarray) (d : dict ndarray) (top_n : Z) :
  embedding_store d -> dict_get word d = Some wv ->
  exists ranked,
    find_most_similar word d top_n = Return (Some (slice_to top_n ranked))
    /\ Permutation (candidates word wv d) ranked
    /\ (Forall plain (candidates word wv d) -> non_increasing ranked).
Proof.
  intros Hd Hw. unfold find_most_similar, items, getitem, contains.
  rewrite Hw. simpl.
  rewrite (similarities_loop_candidates word wv d Hd Hw d []);
    [ | apply incl_refl | apply Hd | reflexivity ].
  simpl.
  destruct (sorted_reverse_returns _ (candidates_have_float word wv d)) as (r & Hr & Hp).
  rewrite Hr. simpl. exists r. repeat split; trivial.
  intros Hplain. eapply sorted_reverse_sorted; eassumption.
Qed.

Lemma distinct_NoDup (l : list string) : distinct l = true -> NoDup l.
Proof.
  induction l as [ | k l IH]; simpl; [constructor | ].
  intros H. apply andb_prop in H as [Hk Hl]. constructor; [ | now apply IH].
  intros Hin. apply negb_true_iff in Hk.
  assert (Ht : existsb (String.eqb k) l = true).
  { apply existsb_exists. exists k. split; [exact Hin | apply String.eqb_refl]. }
  congruence.
Qed.

Lemma embedding_storeb_ok (d : dict ndarray) :
  embedding_storeb d = true -> embedding_store d.
Proof.
  unfold embedding_storeb. intros H. apply andb_prop in H as [Hk Hd]. split.
  - now apply distinct_NoDup.
  - destruct d as [ | [k0 v0] d]; [intros ? ? ? ? [] | ].
    unfold same_dim in Hd. rewrite forallb_forall in Hd.
    intros k1 v1 k2 v2 H1 H2.
    apply Hd in H1. apply Hd in H2. simpl in H1, H2.
    apply Nat.eqb_eq in H1, H2. congruence.
Qed.

Lemma candidate_score (word w : string) (s : score) (wv : ndarray) (d : dict ndarray) :
  embedding_store d -> dict_get word d = Some wv ->
  In (w, s) (candidates word wv d) ->
  w <> word /\ contains w d = true
  /\ exists x, s = Some (cosine wv x) /\ cosine_similarity word w d = Return s.
Proof.
  intros [Hwf Hdim] Hw Hin. unfold candidates in Hin.
  apply in_map_iff in Hin as ([w' x] & E & Hin). simpl in E. injection E as -> <-.
  apply filter_In in Hin as [Hin Hne]. simpl in Hne.
  apply negb_true_iff in Hne. apply String.eqb_neq in Hne.
  pose proof (In_dict_get d w x Hwf Hin) as Hx.
  repeat split; trivial.
  - apply contains_true. now exists x.
  - exists x. split; trivial.
    rewrite (cosine_similarity_present d word w wv x Hw Hx).
    now rewrite (Hdim word wv w x (dict_get_In _ _ _ Hw) Hin), Nat.eqb_refl.
Qed.

Lemma nan_free_plain (word : string) (wv : ndarray) (d : dict ndarray) :
  embedding_store d -> dict_get word d = Some wv ->
  nan_free word d = true -> Forall plain (candidates word wv d).
Proof.
  intros Hd Hw Hfree. apply Forall_forall. intros [w s] Hin.
  destruct (candidate_score word w s wv d Hd Hw Hin) as (Hne & _ & x & -> & Hcos).
  exists (cosine wv x). split; trivial.
  unfold nan_free in Hfree. rewrite forallb_forall in Hfree.
  unfold candidates in Hin. apply in_map_iff in Hin as ([w' x'] & E & Hin).
  simpl in E. injection E as -> E. specialize (Hfree _ Hin). simpl in Hfree.
  rewrite Hcos in Hfree. now apply negb_true_iff in Hfree.
Qed.

(** C1. The code does not rank as the claim says, and as its own comment
    "Sort by similarity and return the top-N most similar words" says:
    [store_1d] is an Embedding Store, "q" is in it, and the three pairs
    returned for [top_n = 3] are not in non-increasing order, because the
    score NaN of the zero vector "z" keeps -1.0 in front of 1.0.  For
    [top_n = 1] the answer is "a" with the score -1.0, although "b" has the
    score 1.0. *)
Lemma nan_breaks_ranking :
  embedding_store store_1d
  /\ find_most_similar "q" store_1d 3
     = Return (Some [("a"%string, Some F32Facts.minus_one); ("z"%string, Some F32.nan);
                     ("b"%string, Some F32.one)])
  /\ F32.ltb F32Facts.minus_one F32.one = true
  /\ ~ (exists r, find_most_similar "q" store_1d 3 = Return (Some r)
                  /\ ranked_result "q" store_1d 3 r)
  /\ find_most_similar "q" store_1d 1
     = Return (Some [("a"%string, Some F32Facts.minus_one)])
  /\ cosine_similarity "q" "b" store_1d = Return (Some F32.one).
Proof.
  split; [apply embedding_storeb_ok; reflexivity | ].
  split; [reflexivity | ].
  split; [reflexivity | ].
  split; [ | split; reflexivity].
  intros (r & Hr & _ & Hs & _).
  vm_compute in Hr. injection Hr as <-.
  inversion Hs as [ | ? ? _ Hall]; subst.
  inversion Hall as [ | ? ? _ Hall']; subst.
  inversion Hall' as [ | ? ? Hb _]; subst.
  vm_compute in Hb. discriminate.
Qed.

(** C9. On an Embedding Store, a query for a present word with
    [top_n = 0] returns the empty list. *)
Theorem find_most_similar_zero (store : dict ndarray) (word : string) :
  embedding_store store -> contains word store = true ->
  find_most_similar word store 0 = Return (Some []).
Proof.
  intros Hd Hin. apply contains_true in Hin as [wv Hw].
  destruct (find_most_similar_spec word wv store 0 Hd Hw) as (ranked & -> & _).
  unfold slice_to. simpl.
  replace (Z.min 0 (Z.of_nat (List.length ranked))) with 0 by lia.
  reflexivity.
Qed.

Lemma find_most_similar_zero_witness :
  find_most_similar "cat" store_3d 0 = Return (Some []).
Proof.
  apply (find_most_similar_zero store_3d "cat").
  - apply embedding_storeb_ok. reflexivity.
  - reflexivity.
Defined.

(** ** Store construction *)

Lemma split_whitespace_only (s : string) :
  whitespace_only s = true <-> Py.split s = [].
Proof.
  induction s as [ | c s IH]; simpl; [tauto | ].
  destruct (Py.isspace c); simpl; [exact IH | ].
  split; [discriminate | ].
  destruct s as [ | c' s']; [discriminate | ].
  destruct (Py.isspace c'); [discriminate | ].
  destruct (Py.split (String c' s')); discriminate.
Qed.

Lemma np_array_float32_length (toks : list string) (a : ndarray) :
  np_array_float32 toks = Return a -> List.length a = List.length toks.
Proof.
  revert a. induction toks as [ | t toks IH]; simpl; intros a H.
  - now injection H as <-.
  - destruct (Py.float t); [ | discriminate].
    destruct (np_array_float32 toks) as [a' | ]; [ | discriminate].
    simpl in H. injection H as <-. simpl. now rewrite (IH a').
Qed.

Lemma np_array_float32_bad (toks : list string) (tok : string) :
  In tok toks -> non_numeric tok -> np_array_float32 toks = Raise ValueError.
Proof.
  unfold non_numeric. induction toks as [ | t toks IH]; simpl; [tauto | ].
  intros [-> | Hin] Hbad.
  - now rewrite Hbad.
  - destruct (Py.float t); [ | reflexivity]. now rewrite IH.
Qed.

Lemma np_array_float32_ok (toks : list string) :
  forallb (fun t => match Py.float t with Some _ => true | None => false end) toks = true ->
  exists a, np_array_float32 toks = Return a.
Proof.
  induction toks as [ | t toks IH]; simpl; [now eexists | ].
  intros H. apply andb_prop in H as [Ht Htoks].
  destruct (Py.float t); [ | discriminate].
  destruct (IH Htoks) as [a ->]. simpl. now eexists.
Qed.

Lemma np_array_float32_raises (toks : list string) (e : exn) :
  np_array_float32 toks = Raise e -> e = ValueError.
Proof.
  induction toks as [ | t toks IH]; simpl; [discriminate | ].
  destruct (Py.float t); [ | congruence].
  destruct (np_array_float32 toks); simpl; [discriminate | ].
  intros H. injection H as <-. now apply IH.
Qed.

Lemma load_loop_app (l1 l2 : list string) :
  forall d, load_loop (l1 ++ l2) d = bind (load_loop l1 d) (load_loop l2).
Proof.
  induction l1 as [ | line l1 IH]; intros d; simpl; trivial.
  destruct (Py.split line) as [ | w toks]; trivial.
  destruct (np_array_float32 toks); simpl; trivial.
Qed.

Lemma load_loop_ok (l : list string) :
  forallb line_ok l = true -> forall d, exists d', load_loop l d = Return d'.
Proof.
  induction l as [ | line l IH]; simpl; intros H d; [now eexists | ].
  apply andb_prop in H as [Hline Hl]. unfold line_ok in Hline.
  destruct (Py.split line) as [ | w toks]; [discriminate | ].
  destruct (np_array_float32_ok toks Hline) as [a ->]. simpl. now apply IH.
Qed.

(** The first line that is not well formed decides the exception. *)
Lemma load_loop_first_bad (l1 l2 : list string) (line : string) (d : dict ndarray) :
  forallb line_ok l1 = true -> line_ok line = false ->
  load_loop (l1 ++ line :: l2) d
  = Raise (match Py.split line with [] => IndexError | _ => ValueError end).
Proof.
  intros H1 Hbad. rewrite load_loop_app.
  destruct (load_loop_ok l1 H1 d) as [d' ->]. simpl.
  unfold line_ok in Hbad.
  destruct (Py.split line) as [ | w toks]; trivial.
  destruct (np_array_float32 toks) as [a | e] eqn:E; simpl.
  - exfalso. clear -E Hbad. revert a E.
    induction toks as [ | t toks IH]; simpl in *; [discriminate | ]; intros a E.
    destruct (Py.float t); [ | discriminate]. simpl in Hbad.
    destruct (np_array_float32 toks) as [a' | ]; [ | discriminate].
    now apply (IH Hbad a').
  - now rewrite (np_array_float32_raises toks e E).
Qed.

Lemma load_loop_bad (l : list string) (line : string) :
  In line l -> line_ok line = false -> forall d, exists e, load_loop l d = Raise e.
Proof.
  induction l as [ | line' l IH]; simpl; [tauto | ]. intros Hin Hbad d.
  destruct (line_ok line') eqn:Hok.
  - destruct Hin as [-> | Hin]; [congruence | ].
    unfold line_ok in Hok.
    destruct (Py.split line') as [ | w toks]; [discriminate | ].
    destruct (np_array_float32_ok toks Hok) as [a ->]. simpl. now apply IH.
  - exists (match Py.split line' with [] => IndexError | _ => ValueError end).
    apply (load_loop_first_bad [] l line' d); trivial.
Qed.

Lemma bad_token_line (line tok : string) :
  In tok (tl (Py.split line)) -> non_numeric tok -> line_ok line = false.
Proof.
  unfold line_ok, non_numeric. destruct (Py.split line) as [ | w toks]; trivial.
  simpl. intros Hin Hbad. apply not_true_is_false. intros H.
  rewrite forallb_forall in H. specialize (H tok Hin). now rewrite Hbad in H.
Qed.

(** C5. If some line has a token behind its word that is no float literal,
    [load_glove_model] raises and returns no store; the exception is numpy's
    [ValueError] when the lines before that one are well formed. *)
Theorem non_numeric_token_fails (lines : list string) (line tok : string) :
  In line lines -> In tok (tl (Py.split line)) -> non_numeric tok ->
  (exists e, load_glove_model lines = Raise e)
  /\ (forall l1 l2, lines = l1 ++ line :: l2 -> forallb line_ok l1 = true ->
                    load_glove_model lines = Raise ValueError).
Proof.
  intros Hin Htok Hbad. pose proof (bad_token_line line tok Htok Hbad) as Hline.
  split.
  - now apply (load_loop_bad lines line).
  - intros l1 l2 -> H1. unfold load_glove_model.
    rewrite (load_loop_first_bad l1 l2 line [] H1 Hline).
    destruct (Py.split line); [destruct Htok | reflexivity].
Qed.

Lemma non_numeric_token_fails_witness :
  (exists e, load_glove_model ["apple 1 0"; "bad abc 1.0"]%string = Raise e)
  /\ (forall l1 l2, ["apple 1 0"; "bad abc 1.0"]%string = l1 ++ "bad abc 1.0"%string :: l2 ->
                    forallb line_ok l1 = true ->
                    load_glove_model ["apple 1 0"; "bad abc 1.0"]%string = Raise ValueError).
Proof.
  apply (non_numeric_token_fails _ "bad abc 1.0"%string "abc"%string).
  - simpl. tauto.
  - simpl. tauto.
  - reflexivity.
Defined.

(** C10. If some line has no token (it is empty or all whitespace),
    [load_glove_model] raises instead of skipping the line; the exception is
    the [IndexError] of [split_line[0]] when the lines before that one are
    well formed. *)
Theorem blank_line_fails (lines : list string) (line : string) :
  In line lines -> whitespace_only line = true ->
  (exists e, load_glove_model lines = Raise e)
  /\ (forall l1 l2, lines = l1 ++ line :: l2 -> forallb line_ok l1 = true ->
                    load_glove_model lines = Raise IndexError).
Proof.
  intros Hin Hws. apply split_whitespace_only in Hws.
  assert (Hline : line_ok line = false) by (unfold line_ok; now rewrite Hws).
  split.
  - now apply (load_loop_bad lines line).
  - intros l1 l2 -> H1. unfold load_glove_model.
    now rewrite (load_loop_first_bad l1 l2 line [] H1 Hline), Hws.
Qed.

Lemma blank_line_fails_witness :
  (exists e, load_glove_model lines_blank = Raise e)
  /\ (forall l1 l2, lines_blank = l1 ++ text_line "  " :: l2 -> forallb line_ok l1 = true ->
                    load_glove_model lines_blank = Raise IndexError).
Proof.
  apply (blank_line_fails lines_blank (text_line "  ")).
  - simpl. tauto.
  - reflexivity.
Defined.

Lemma In_setitem {V : Type} (d : dict V) (k : string) (x : V) (e : string * V) :
  In e (setitem k x d) -> e = (k, x) \/ In e d.
Proof.
  induction d as [ | [k' x'] d IH]; simpl.
  - intros [<- | []]. now left.
  - destruct (String.eqb_spec k k') as [-> | Hne]; simpl.
    + intros [<- | H]; auto.
    + intros [<- | H]; auto. destruct (IH H); auto.
Qed.

Lemma load_loop_wf (l : list string) :
  forall d d', wf_dict d -> load_loop l d = Return d' -> wf_dict d'.
Proof.
  induction l as [ | line l IH]; simpl; intros d d' Hd H.
  - now injection H as <-.
  - destruct (Py.split line) as [ | w toks]; [discriminate | ].
    destruct (np_array_float32 toks) as [a | ]; [ | discriminate]. simpl in H.
    eapply IH; [ | exact H]. now apply wf_setitem.
Qed.

(** Every entry comes from a line of the input. *)
Lemma load_loop_entries (l : list string) :
  forall d d', load_loop l d = Return d' ->
  forall w x, In (w, x) d' ->
    In (w, x) d
    \/ exists line toks, In line l /\ Py.split line = w :: toks
                         /\ np_array_float32 toks = Return x.
Proof.
  induction l as [ | line l IH]; simpl; intros d d' H w x Hin.
  - injection H as <-. now left.
  - destruct (Py.split line) as [ | w0 toks] eqn:Hs; [discriminate | ].
    destruct (np_array_float32 toks) as [a | ] eqn:Ha; [ | discriminate]. simpl in H.
    destruct (IH _ _ H w x Hin) as [Hd | (line' & toks' & Hl & Hs' & Ha')].
    + apply In_setitem in Hd as [E | Hd]; [ | now left].
      injection E as -> ->. right. exists line, toks. auto.
    + right. exists line', toks'. auto.
Qed.

(** Lines for other words leave the entry of [w] alone. *)
Lemma load_loop_other_words (l : list string) (w : string) :
  (forall line, In line l -> line_word line <> Some w) ->
  forall d d', load_loop l d = Return d' -> dict_get w d' = dict_get w d.
Proof.
  induction l as [ | line l IH]; simpl; intros Hl d d' H.
  - now injection H as <-.
  - pose proof (Hl line (or_introl eq_refl)) as Hw. unfold line_word in Hw.
    destruct (Py.split line) as [ | w0 toks]; [discriminate | ].
    destruct (np_array_float32 toks) as [a | ]; [ | discriminate]. simpl in H, Hw.
    rewrite (IH (fun line' Hin => Hl line' (or_intror Hin)) _ _ H).
    rewrite dict_get_setitem.
    destruct (String.eqb_spec w w0) as [-> | Hne]; congruence.
Qed.

(** C6. When the lines are well formed, construction returns a store in
    which a word that heads one or more lines has exactly one entry, and
    the vector of that entry is the one parsed from the last of those
    lines. *)
Theorem last_write_wins (l1 l2 : list string) (line word : string) (toks : list string) :
  forallb line_ok (l1 ++ line :: l2) = true ->
  Py.split line = word :: toks ->
  (forall line', In line' l2 -> line_word line' <> Some word) ->
  exists store embedding,
    load_glove_model (l1 ++ line :: l2) = Return store
    /\ np_array_float32 toks = Return embedding
    /\ getitem store word = Return embedding
    /\ count_occ string_dec (keys store) word = 1%nat.
Proof.
  intros Hok Hs Hl2.
  destruct (load_loop_ok _ Hok []) as [store H].
  unfold load_glove_model. rewrite H. rewrite load_loop_app in H.
  destruct (load_loop l1 []) as [d1 | ] eqn:H1; [ | discriminate].
  simpl in H. rewrite Hs in H.
  destruct (np_array_float32 toks) as [a | ] eqn:Ha; [ | discriminate].
  simpl in H. exists store, a. split; trivial. split; trivial.
  assert (Hget : dict_get word store = Some a).
  { rewrite (load_loop_other_words l2 word Hl2 _ _ H), dict_get_setitem.
    now rewrite String.eqb_refl. }
  split.
  - unfold getitem. now rewrite Hget.
  - assert (Hwf : wf_dict store).
    { eapply load_loop_wf; [ | exact H]. apply wf_setitem.
      eapply load_loop_wf; [ | exact H1]. constructor. }
    apply NoDup_count_occ'; trivial.
    apply dict_get_In in Hget. now apply (in_map fst) in Hget.
Qed.

Lemma last_write_wins_witness :
  exists store embedding,
    load_glove_model lines_apple = Return store
    /\ np_array_float32 ["0"; "1"]%string = Return embedding
    /\ getitem store "apple" = Return embedding
    /\ count_occ string_dec (keys store) "apple"%string = 1%nat.
Proof.
  apply (last_write_wins [text_line "apple 1 0"] [] (text_line "apple 0 1") "apple").
  - reflexivity.
  - reflexivity.
  - intros line' [].
Defined.

(** The specification's scenario: the two lines for "apple" leave one
    entry, with the second line's vector. *)
Example apple_scenario :
  load_glove_model lines_apple = Return [("apple"%string, vec [0; 1])].
Proof. reflexivity. Qed.

(** C4 (amended). The loader compares no vector lengths.  When every line
    has a word followed only by float literals it returns a store, whatever
    the numbers of tokens; every stored vector has as many components as
    the line it was read from has tokens behind the word; hence the store
    is an Embedding Store when all lines have the same number of tokens. *)
Theorem load_keeps_line_lengths (lines : list string) :
  forallb line_ok lines = true ->
  exists store,
    load_glove_model lines = Return store
    /\ wf_dict store
    /\ (forall w x, In (w, x) store ->
          exists line toks, In line lines /\ Py.split line = w :: toks
                            /\ List.length x = List.length toks)
    /\ (forall n, (forall line, In line lines -> List.length (Py.split line) = S n) ->
                  embedding_store store).
Proof.
  intros Hok. destruct (load_loop_ok lines Hok []) as [store Hs].
  assert (Hwf : wf_dict store) by (eapply load_loop_wf; [ | exact Hs]; constructor).
  assert (Hent : forall w x, In (w, x) store ->
            exists line toks, In line lines /\ Py.split line = w :: toks
                              /\ List.length x = List.length toks).
  { intros w x Hin.
    destruct (load_loop_entries lines _ _ Hs w x Hin) as [[] | (line & toks & Hl & Hsp & Ha)].
    exists line, toks. repeat split; trivial. now apply np_array_float32_length. }
  exists store. repeat split; trivial.
  intros k1 v1 k2 v2 H1 H2.
  destruct (Hent _ _ H1) as (line1 & toks1 & Hl1 & Hs1 & ->).
  destruct (Hent _ _ H2) as (line2 & toks2 & Hl2 & Hs2 & ->).
  apply H in Hl1, Hl2. rewrite Hs1 in Hl1. rewrite Hs2 in Hl2. simpl in *. congruence.
Qed.

Lemma load_keeps_line_lengths_witness :
  exists store,
    load_glove_model lines_ragged = Return store
    /\ wf_dict store
    /\ (forall w x, In (w, x) store ->
          exists line toks, In line lines_ragged /\ Py.split line = w :: toks
                            /\ List.length x = List.length toks)
    /\ (forall n, (forall line, In line lines_ragged -> List.length (Py.split line) = S n) ->
                  embedding_store store).
Proof.
  apply (load_keeps_line_lengths lines_ragged). reflexivity.
Defined.

(** C4 fails as stated: the second line has one component where the first
    has two; the loader raises nothing and returns a store that holds both
    vectors. *)
Lemma ragged_lines_accepted :
  load_glove_model lines_ragged
  = Return [("a"%string, vec [1; 0]); ("b"%string, vec [1])]
  /\ ~ uniform_dim [("a"%string, vec [1; 0]); ("b"%string, vec [1])].
Proof.
  split; [reflexivity | ].
  intros H. specialize (H "a"%string (vec [1; 0]) "b"%string (vec [1])).
  simpl in H. assert (E : 2%nat = 1%nat) by (apply H; tauto). discriminate.
Qed.

(** ** The range of the scores *)

Section CauchySchwarz.
Local Open Scope Q_scope.

Lemma Qsquare_nonneg (q : Q) : 0 <= q * q.
Proof. nra. Qed.

Lemma Qmul_nonneg (p q : Q) : 0 <= p -> 0 <= q -> 0 <= p * q.
Proof. intros. nra. Qed.

Lemma Qsquare_le (u v : Q) : 0 <= v -> u * u <= v * v -> u <= v.
Proof. intros Hv H. nra. Qed.

Lemma dotQ_self_nonneg (a : ndarray) : 0 <= dotQ a a.
Proof.
  induction a as [ | x a IH]; simpl; [lra | ].
  pose proof (Qsquare_nonneg (F32Facts.value x)). lra.
Qed.

Lemma cauchy_schwarz_step (A B C x y : Q) :
  0 <= A -> 0 <= B -> C * C <= A * B ->
  (x * y + C) * (x * y + C) <= (x * x + A) * (y * y + B).
Proof.
  intros HA HB HC.
  assert (H2 : 2 * (x * y * C) <= x * x * B + y * y * A).
  { apply Qsquare_le.
    - pose proof (Qmul_nonneg _ _ (Qsquare_nonneg x) HB).
      pose proof (Qmul_nonneg _ _ (Qsquare_nonneg y) HA). lra.
    - pose proof (Qsquare_nonneg (x * x * B - y * y * A)) as H.
      assert (H' : 0 <= (x * y) * (x * y) * (A * B - C * C)).
      { apply Qmul_nonneg; [apply Qsquare_nonneg | lra]. }
      lra. }
  lra.
Qed.

(** The Cauchy-Schwarz inequality for the numbers two vectors denote. *)
Lemma dotQ_cauchy_schwarz (a b : ndarray) :
  dotQ a b * dotQ a b <= dotQ a a * dotQ b b.
Proof.
  revert b. induction a as [ | x a IH]; intros [ | y b]; simpl; try lra.
  apply cauchy_schwarz_step; auto using dotQ_self_nonneg.
Qed.

End CauchySchwarz.

(** ** Division rounds to at most one

    The float32 quotient of two finite floats [d] and [m] with
    [|d| <= m] is a float of magnitude at most one: the quotient is cut at
    an exponent at which 1 is representable, and rounding to nearest cannot
    pass it. *)

Lemma digits2_bounds (p : positive) :
  2 ^ (Zpos (digits2_pos p) - 1) <= Zpos p < 2 ^ Zpos (digits2_pos p).
Proof.
  induction p as [p IH | p IH | ]; cbn [digits2_pos].
  - rewrite Pos2Z.inj_succ, Z.pow_succ_r by lia.
    replace (Z.succ (Zpos (digits2_pos p)) - 1) with (Z.succ (Zpos (digits2_pos p) - 1)) by lia.
    rewrite Z.pow_succ_r by lia. lia.
  - rewrite Pos2Z.inj_succ, Z.pow_succ_r by lia.
    replace (Z.succ (Zpos (digits2_pos p)) - 1) with (Z.succ (Zpos (digits2_pos p) - 1)) by lia.
    rewrite Z.pow_succ_r by lia. lia.
  - simpl. lia.
Qed.

Lemma Zdigits2_le_pow (m k : Z) : 0 <= m -> 0 <= k -> m <= 2 ^ k -> Zdigits2 m <= k + 1.
Proof.
  intros Hm Hk H. destruct m as [ | p | p]; simpl; try lia.
  destruct (digits2_bounds p) as [Hlo _].
  destruct (Z.le_gt_cases (Zpos (digits2_pos p)) (k + 1)) as [ | Hgt]; trivial.
  exfalso. assert (2 ^ (k + 1) <= 2 ^ (Zpos (digits2_pos p) - 1)).
  { apply Z.pow_le_mono_r; lia. }
  rewrite Z.pow_add_r in H0 by lia. lia.
Qed.

Lemma shr_1_m (mrs : shr_record) : 0 <= shr_m mrs -> shr_m (shr_1 mrs) = shr_m mrs / 2.
Proof.
  destruct mrs as [m r s]. cbn [shr_m]. intros H.
  destruct m as [ | [p | p | ] | p]; try lia; cbn [shr_1 shr_m].
  - reflexivity.
  - apply Z.div_unique with (r := 1); lia.
  - apply Z.div_unique with (r := 0); lia.
  - reflexivity.
Qed.

Lemma shr_1_r (mrs : shr_record) : 0 <= shr_m mrs -> shr_r (shr_1 mrs) = Z.odd (shr_m mrs).
Proof.
  destruct mrs as [m r s]. simpl. intros H.
  destruct m as [ | [p | p | ] | p]; try lia; reflexivity.
Qed.

Lemma shr_1_s (mrs : shr_record) : shr_s (shr_1 mrs) = shr_r mrs || shr_s mrs.
Proof.
  destruct mrs as [m r s]. simpl.
  destruct m as [ | [p | p | ] | [p | p | ]]; reflexivity.
Qed.

Lemma shifted_step (exact : bool) (m0 k : Z) (mrs : shr_record) :
  0 <= m0 -> 0 <= k -> shifted exact m0 k mrs -> shifted exact m0 (k + 1) (shr_1 mrs).
Proof.
  intros Hm Hk [Hs He].
  assert (Hp : 0 < 2 ^ k) by (apply Z.pow_pos_nonneg; lia).
  assert (Hnn : 0 <= shr_m mrs) by (rewrite Hs; apply Z.div_pos; lia).
  split.
  - rewrite shr_1_m, Hs by exact Hnn. rewrite Z.pow_add_r, Z.pow_1_r by lia.
    rewrite Z.div_div by lia. reflexivity.
  - intros Hex Hmod. rewrite Z.pow_add_r, Z.pow_1_r in Hmod by lia.
    assert (Hmod' : m0 mod 2 ^ k = 0).
    { apply Z.mod_divide in Hmod; [ | lia]. apply Z.mod_divide; [lia | ].
      destruct Hmod as [c Hc]. exists (c * 2). lia. }
    destruct (He Hex Hmod') as [Hr Hs'].
    rewrite shr_1_r, shr_1_s, Hr, Hs' by exact Hnn. split; trivial.
    rewrite Hs. apply Z.mod_divide in Hmod; [ | lia]. destruct Hmod as [c Hc].
    subst m0. replace (c * (2 ^ k * 2)) with (c * 2 * 2 ^ k) by lia.
    rewrite Z.div_mul by lia. rewrite Z.odd_mul. simpl. apply andb_false_r.
Qed.

Lemma shifted_iter (exact : bool) (m0 : Z) (p : positive) :
  0 <= m0 ->
  forall k mrs, 0 <= k -> shifted exact m0 k mrs ->
                shifted exact m0 (k + Zpos p) (SpecFloat.iter_pos shr_1 p mrs).
Proof.
  intros Hm. induction p as [p IH | p IH | ]; intros k mrs Hk H; cbn [SpecFloat.iter_pos].
  - replace (k + Zpos p~1) with (((k + 1) + Zpos p) + Zpos p) by lia.
    apply IH; [lia | ]. apply IH; [lia | ]. now apply shifted_step.
  - replace (k + Zpos p~0) with ((k + Zpos p) + Zpos p) by lia.
    apply IH; [lia | ]. now apply IH.
  - now apply shifted_step.
Qed.

Lemma shifted_start (m : Z) (l : location) :
  shifted (match l with loc_Exact => true | _ => false end) m 0 (shr_record_of_loc m l).
Proof.
  split.
  - rewrite Z.pow_0_r, Z.div_1_r. now destruct l as [ | [ | | ]].
  - destruct l as [ | [ | | ]]; try discriminate. intros _ _. now split.
Qed.

(** What [shr_fexp] returns. *)
Lemma shr_fexp_shifted (prec emax m e : Z) (l : location) :
  0 <= m ->
  exists k,
    0 <= k
    /\ snd (shr_fexp prec emax m e l) = e + k
    /\ (k = 0 \/ e + k = fexp prec emax (Zdigits2 m + e))
    /\ shifted (match l with loc_Exact => true | _ => false end) m k
         (fst (shr_fexp prec emax m e l)).
Proof.
  intros Hm. unfold shr_fexp, shr.
  destruct (fexp prec emax (Zdigits2 m + e) - e) as [ | p | p] eqn:E.
  - exists 0. cbn [fst snd].
    split; [lia | split; [lia | split; [now left | apply shifted_start]]].
  - exists (Zpos p). cbn [fst snd].
    split; [lia | split; [lia | split; [right; lia | ]]].
    apply (shifted_iter _ m p Hm 0); [lia | apply shifted_start].
  - exists 0. cbn [fst snd].
    split; [lia | split; [lia | split; [now left | apply shifted_start]]].
Qed.

Lemma round_nearest_even_bounds (m : Z) (l : location) :
  m <= round_nearest_even m l <= m + 1
  /\ (l = loc_Exact -> round_nearest_even m l = m).
Proof.
  unfold round_nearest_even. destruct l as [ | [ | | ]]; try destruct (Z.even m);
    split; try lia; try discriminate; reflexivity.
Qed.

Lemma fexp_small (x : Z) : x <= 1 -> fexp 24 128 x <= -23.
Proof. unfold fexp, emin. lia. Qed.

(** One pass of rounding: shift to the target exponent, then round. *)
Lemma shift_le_pow (q e k : Z) (l : location) (mrs : shr_record) :
  0 <= q -> 0 <= k -> e + k <= 0 -> q <= 2 ^ (- e) ->
  (q = 2 ^ (- e) -> l = loc_Exact) ->
  shifted (match l with loc_Exact => true | _ => false end) q k mrs ->
  0 <= round_nearest_even (shr_m mrs) (loc_of_shr_record mrs) <= 2 ^ (- (e + k)).
Proof.
  intros Hq Hk He Hle Hex [Hm Hexact].
  assert (Hp : 0 < 2 ^ k) by (apply Z.pow_pos_nonneg; lia).
  assert (HQ : 2 ^ (- e) = 2 ^ (- (e + k)) * 2 ^ k).
  { rewrite <- Z.pow_add_r by lia. f_equal. lia. }
  assert (HP : 0 < 2 ^ (- (e + k))) by (apply Z.pow_pos_nonneg; lia).
  assert (Hsm : 0 <= shr_m mrs <= 2 ^ (- (e + k))).
  { rewrite Hm. split; [apply Z.div_pos; lia | ].
    apply Z.div_le_upper_bound; [lia | ]. rewrite Z.mul_comm. lia. }
  destruct (round_nearest_even_bounds (shr_m mrs) (loc_of_shr_record mrs)) as [Hb Hx].
  destruct (Z.eq_dec (shr_m mrs) (2 ^ (- (e + k)))) as [E | Hne]; [ | lia].
  assert (Hqe : q = 2 ^ (- e)).
  { pose proof (Z.mul_div_le q (2 ^ k) Hp) as Hd. rewrite <- Hm, E in Hd. lia. }
  assert (Hmod : q mod 2 ^ k = 0).
  { rewrite Hqe, HQ. apply Z.mod_mul. lia. }
  rewrite (Hex Hqe) in Hexact. destruct (Hexact eq_refl Hmod) as [Hr Hs].
  rewrite Hx; [lia | ]. destruct mrs as [m r s]. simpl in Hr, Hs. now subst.
Qed.

Lemma binary_round_aux_le_one (s : bool) (q e : Z) (l : location) :
  0 <= q -> e <= 0 -> q <= 2 ^ (- e) -> (q = 2 ^ (- e) -> l = loc_Exact) ->
  at_most_one s (binary_round_aux 24 128 s q e l).
Proof.
  intros Hq He Hle Hex. unfold binary_round_aux.
  destruct (shr_fexp_shifted 24 128 q e l Hq) as (k & Hk & He1 & Hk1 & Hsh).
  destruct (shr_fexp 24 128 q e l) as [mrs1 e1]. cbn [fst snd] in *. subst e1.
  assert (He1 : e + k <= 0).
  { destruct Hk1 as [-> | ->]; [lia | ].
    pose proof (Zdigits2_le_pow q (- e) Hq ltac:(lia) Hle).
    pose proof (fexp_small (Zdigits2 q + e)). lia. }
  pose proof (shift_le_pow q e k l mrs1 Hq Hk He1 Hle Hex Hsh) as Hm1.
  set (m1 := round_nearest_even (shr_m mrs1) (loc_of_shr_record mrs1)) in *.
  destruct (shr_fexp_shifted 24 128 m1 (e + k) loc_Exact (proj1 Hm1))
    as (k2 & Hk2 & He2 & Hk2' & [Hm2 _]).
  destruct (shr_fexp 24 128 m1 (e + k) loc_Exact) as [mrs2 e2]. cbn [fst snd] in *. subst e2.
  assert (He2 : e + k + k2 <= 0).
  { destruct Hk2' as [-> | ->]; [lia | ].
    pose proof (Zdigits2_le_pow m1 (- (e + k)) (proj1 Hm1) ltac:(lia) (proj2 Hm1)).
    pose proof (fexp_small (Zdigits2 m1 + (e + k))). lia. }
  assert (Hp : 0 < 2 ^ k2) by (apply Z.pow_pos_nonneg; lia).
  assert (Hsm2 : 0 <= shr_m mrs2 <= 2 ^ (- (e + k + k2))).
  { rewrite Hm2. split; [apply Z.div_pos; lia | ].
    apply Z.div_le_upper_bound; [lia | ].
    rewrite <- Z.pow_add_r by lia. replace (k2 + - (e + k + k2)) with (- (e + k)) by lia. lia. }
  destruct (shr_m mrs2) as [ | m | m]; cbn [at_most_one]; try lia; trivial.
  destruct (Z.leb_spec (e + k + k2) (128 - 24)); [ | lia].
  cbn [at_most_one]. repeat split; lia.
Qed.

Lemma div_core_le_one (mx my : positive) (ex ey T : Z) :
  T <= ex -> T <= ey ->
  Zpos mx * 2 ^ (ex - T) <= Zpos my * 2 ^ (ey - T) ->
  let '(q, e, l) := SFdiv_core_binary 24 128 (Zpos mx) ex (Zpos my) ey in
  0 <= q /\ e <= 0 /\ q <= 2 ^ (- e) /\ (q = 2 ^ (- e) -> l = loc_Exact).
Proof.
  intros Hx Hy Hle. unfold SFdiv_core_binary.
  cbn [Zdigits2].
  destruct (digits2_bounds mx) as [Hd1 _]. destruct (digits2_bounds my) as [_ Hd2].
  set (d1 := Zpos (digits2_pos mx)) in *. set (d2 := Zpos (digits2_pos my)) in *.
  assert (Hd1p : 1 <= d1) by (unfold d1; lia).
  assert (Hd2p : 1 <= d2) by (unfold d2; lia).
  assert (Hmag : d1 + ex - (d2 + ey) <= 0).
  { assert (H1 : 2 ^ (d1 - 1 + (ex - T)) <= Zpos mx * 2 ^ (ex - T)).
    { rewrite Z.pow_add_r by lia. apply Z.mul_le_mono_nonneg_r; [ | lia].
      apply Z.pow_nonneg. lia. }
    assert (H2 : Zpos my * 2 ^ (ey - T) < 2 ^ (d2 + (ey - T))).
    { rewrite Z.pow_add_r by lia. apply Z.mul_lt_mono_pos_r; [ | lia].
      apply Z.pow_pos_nonneg; lia. }
    assert (H3 : 2 ^ (d1 - 1 + (ex - T)) < 2 ^ (d2 + (ey - T))) by lia.
    apply Z.pow_lt_mono_r_iff in H3; lia. }
  set (e := Z.min (fexp 24 128 (d1 + ex - (d2 + ey))) (ex - ey)).
  assert (He : e <= -24 /\ e <= ex - ey).
  { unfold e, fexp, emin. lia. }
  assert (Hs : 0 <= ex - ey - e) by lia.
  set (m' := match ex - ey - e with
             | 0 => Zpos mx
             | Zpos _ => Z.shiftl (Zpos mx) (ex - ey - e)
             | Zneg _ => 0
             end).
  assert (Hm' : m' = Zpos mx * 2 ^ (ex - ey - e)).
  { unfold m'. destruct (ex - ey - e) as [ | p | p] eqn:E; try lia.
    rewrite Z.shiftl_mul_pow2 by lia. reflexivity. }
  assert (Hb : m' <= Zpos my * 2 ^ (- e)).
  { apply (Z.mul_le_mono_pos_r _ _ (2 ^ (ex - T))); [apply Z.pow_pos_nonneg; lia | ].
    rewrite Hm'. rewrite <- !Z.mul_assoc, <- !Z.pow_add_r by lia.
    replace (ex - ey - e + (ex - T)) with ((ex - T) + (ex - ey - e)) by lia.
    replace (- e + (ex - T)) with ((ey - T) + (ex - ey - e)) by lia.
    rewrite !Z.pow_add_r by lia. rewrite !Z.mul_assoc.
    apply Z.mul_le_mono_nonneg_r; [apply Z.pow_nonneg; lia | exact Hle]. }
  pose proof (Z.div_mod m' (Zpos my) ltac:(lia)) as Hdm.
  pose proof (Z.mod_pos_bound m' (Zpos my) ltac:(lia)) as Hr.
  unfold Z.div, Z.modulo in Hdm, Hr.
  destruct (Z.div_eucl m' (Zpos my)) as [q r].
  assert (HQ : 0 < 2 ^ (- e)) by (apply Z.pow_pos_nonneg; lia).
  assert (Hm'0 : 0 <= m').
  { rewrite Hm'. apply Z.mul_nonneg_nonneg; [lia | apply Z.pow_nonneg; lia]. }
  assert (Hq0 : 0 <= q) by nia.
  assert (Hq : q <= 2 ^ (- e)) by nia.
  repeat split; try lia.
  intros Eq. assert (r = 0) by nia. subst r.
  unfold new_location, new_location_even, new_location_odd.
  now destruct (Z.even (Zpos my)).
Qed.

Lemma at_most_one_in_unit_interval (s : bool) (x : float32) :
  at_most_one s x -> F32Facts.in_unit_interval x = true.
Proof.
  destruct x as [s' | s' | | s' m e]; cbn [at_most_one]; [reflexivity | tauto | tauto | ].
  intros (_ & He & Hm). unfold F32Facts.in_unit_interval. cbn [F32Facts.is_finite andb].
  assert (Hp : 0 < 2 ^ (- e)) by (apply Z.pow_pos_nonneg; lia).
  apply andb_true_intro. split; apply Qle_bool_iff; unfold F32Facts.value;
    destruct (Z.leb_spec 0 e) as [H0 | H0].
  - assert (e = 0) by lia. subst e. rewrite Z.pow_0_r in *.
    unfold Qle. cbn [Qnum Qden inject_Z Qopp]. destruct s'; lia.
  - unfold Qle. cbn [Qnum Qden Qopp]. rewrite Z2Pos.id by exact Hp. destruct s'; lia.
  - assert (e = 0) by lia. subst e. rewrite Z.pow_0_r in *.
    unfold Qle. cbn [Qnum Qden inject_Z]. destruct s'; lia.
  - unfold Qle. cbn [Qnum Qden]. rewrite Z2Pos.id by exact Hp. destruct s'; lia.
Qed.

Lemma value_scale (s : bool) (m : positive) (e T : Z) :
  T <= e -> T <= 0 ->
  (F32Facts.value (S754_finite s m e) * inject_Z (2 ^ (- T))
   == inject_Z ((if s then -1 else 1) * (Zpos m * 2 ^ (e - T))))%Q.
Proof.
  intros He HT. unfold F32Facts.value. destruct (Z.leb_spec 0 e) as [H0 | H0].
  - rewrite <- inject_Z_mult. apply inject_Z_injective.
    replace (e - T) with (e + - T) by lia. rewrite Z.pow_add_r by lia.
    destruct s; [change (Z.neg m) with (- Z.pos m) | ]; ring.
  - assert (Hp : 0 < 2 ^ (- e)) by (apply Z.pow_pos_nonneg; lia).
    unfold Qeq, Qmult, inject_Z. cbn [Qnum Qden].
    rewrite Pos.mul_1_r, Z2Pos.id by exact Hp.
    replace (- T) with ((e - T) + - e) by lia. rewrite Z.pow_add_r by lia.
    destruct s; [change (Z.neg m) with (- Z.pos m) | ]; ring.
Qed.

Lemma negative_value (m : positive) (e : Z) :
  Qle_bool (F32Facts.value (S754_finite true m e)) 0 = true.
Proof.
  apply Qle_bool_iff. unfold F32Facts.value. destruct (Z.leb_spec 0 e).
  - unfold Qle. cbn [Qnum Qden inject_Z].
    assert (0 <= 2 ^ e) by (apply Z.pow_nonneg; lia). nia.
  - unfold Qle. cbn [Qnum Qden]. lia.
Qed.

(** The quotient that [cosine_similarity] forms lies in [-1, 1] when the
    dividend is within the divisor. *)
Lemma div_within (d m : float32) :
  within d m = true -> F32Facts.in_unit_interval (F32.div d m) = true.
Proof.
  unfold within. intros H.
  apply andb_prop in H as [H Hhi]. apply andb_prop in H as [H Hlo].
  apply andb_prop in H as [H Hpos]. apply andb_prop in H as [Hd Hm].
  apply negb_true_iff in Hpos.
  destruct m as [sy | sy | | sy my ey]; try discriminate.
  destruct sy; [now rewrite negative_value in Hpos | ].
  destruct d as [sx | sx | | sx mx ex]; try discriminate.
  - now destruct sx.
  - apply Qle_bool_iff in Hlo, Hhi.
    set (T := Z.min (Z.min ex ey) 0).
    pose proof (value_scale sx mx ex T ltac:(lia) ltac:(lia)) as Ed.
    pose proof (value_scale false my ey T ltac:(lia) ltac:(lia)) as Em.
    assert (HK : (0 < inject_Z (2 ^ (- T)))%Q).
    { change 0%Q with (inject_Z 0). rewrite <- Zlt_Qlt. apply Z.pow_pos_nonneg; lia. }
    assert (Hle : Zpos mx * 2 ^ (ex - T) <= Zpos my * 2 ^ (ey - T)).
    { rewrite Zle_Qle.
      set (X := Zpos mx * 2 ^ (ex - T)) in *. set (Y := Zpos my * 2 ^ (ey - T)) in *.
      set (K := inject_Z (2 ^ (- T))) in *.
      set (vd := F32Facts.value (S754_finite sx mx ex)) in *.
      set (vm := F32Facts.value (S754_finite false my ey)) in *.
      rewrite inject_Z_mult in Ed, Em.
      destruct sx.
      - change (inject_Z (-1)) with (- (1))%Q in Ed. change (inject_Z 1) with 1%Q in Em.
        assert (E1 : (inject_Z X == - (vd * K))%Q) by (rewrite Ed; ring).
        assert (E2 : (inject_Z Y == vm * K)%Q) by (rewrite Em; ring).
        rewrite E1, E2. nra.
      - change (inject_Z 1) with 1%Q in Ed, Em.
        assert (E1 : (inject_Z X == vd * K)%Q) by (rewrite Ed; ring).
        assert (E2 : (inject_Z Y == vm * K)%Q) by (rewrite Em; ring).
        rewrite E1, E2. nra. }
    pose proof (div_core_le_one mx my ex ey T ltac:(lia) ltac:(lia) Hle) as Hcore.
    unfold F32.div, SFdiv, F32.prec, F32.emax.
    destruct (SFdiv_core_binary 24 128 (Z.pos mx) ex (Z.pos my) ey) as [[q e] l].
    destruct Hcore as (Hq & He & Hqe & Hex).
    apply (at_most_one_in_unit_interval (xorb sx false)).
    now apply binary_round_aux_le_one.
Qed.

Lemma cosine_within (a b : ndarray) :
  dot_within_norms a b = true -> F32Facts.in_unit_interval (cosine a b) = true.
Proof. unfold dot_within_norms, cosine. apply div_within. Qed.

(** By the Cauchy-Schwarz inequality the dot product is within the product
    of the norms whenever these are computed without rounding. *)
Lemma exact_inputs_within (a b : ndarray) :
  exact_inputs a b = true -> dot_within_norms a b = true.
Proof.
  unfold exact_inputs, dot_within_norms, within. intros H.
  repeat (apply andb_prop in H as [H ?]).
  repeat match goal with
         | E : Qeq_bool _ _ = true |- _ => apply Qeq_bool_iff in E
         | E : negb (Qle_bool _ _) = true |- _ => rewrite E
         end.
  rewrite H. match goal with E : F32Facts.is_finite _ = true |- _ => rewrite E end.
  cbn [andb].
  set (M := F32Facts.value (F32.mul (norm a) (norm b))) in *.
  set (D := F32Facts.value (dot_loop F32.zero a b)) in *.
  assert (HM : (0 < M)%Q).
  { match goal with E : negb (Qle_bool M 0) = true |- _ =>
      apply negb_true_iff in E; destruct (Qlt_le_dec 0 M) as [ | Hle]; trivial;
      apply Qle_bool_iff in Hle; congruence end. }
  assert (HD : (D * D <= M * M)%Q).
  { pose proof (dotQ_cauchy_schwarz a b) as Hcs.
    match goal with
    | E1 : (_ * _ == dotQ a a)%Q, E2 : (_ * _ == dotQ b b)%Q,
      E3 : (D == dotQ a b)%Q, E4 : (M == _)%Q |- _ =>
        rewrite <- E1, <- E2, <- E3 in Hcs; rewrite E4
    end.
    lra. }
  apply andb_true_intro. split; apply Qle_bool_iff.
  - assert (Hn : (- D <= M)%Q) by (apply Qsquare_le; [lra | ]; lra). lra.
  - apply Qsquare_le; lra.
Qed.

Lemma cosine_similarity_returned (store : dict ndarray) (word1 word2 : string)
  (vec1 vec2 : ndarray) (s : float32) :
  getitem store word1 = Return vec1 -> getitem store word2 = Return vec2 ->
  cosine_similarity word1 word2 store = Return (Some s) -> s = cosine vec1 vec2.
Proof.
  unfold getitem. intros H1 H2.
  destruct (dict_get word1 store) as [a | ] eqn:Ha; [ | discriminate].
  destruct (dict_get word2 store) as [b | ] eqn:Hb; [ | discriminate].
  injection H1 as ->. injection H2 as ->.
  rewrite (cosine_similarity_present _ _ _ _ _ Ha Hb).
  destruct (Nat.eqb (List.length vec1) (List.length vec2)); congruence.
Qed.

(** C8 (amended). A score that [cosine_similarity] returns for two present
    words lies in [-1, 1] whenever the float32 dot product of the two
    vectors is finite and its magnitude is at most the float32 product of
    their norms, a finite positive float: the division then rounds to at
    most one.  Every pair of a ranked result carries the score that
    [cosine_similarity] returns for the query and that word, so the same
    holds for it. *)
Theorem scores_in_unit_interval (store : dict ndarray) :
  (forall word1 word2 vec1 vec2 s,
      getitem store word1 = Return vec1 -> getitem store word2 = Return vec2 ->
      cosine_similarity word1 word2 store = Return (Some s) ->
      dot_within_norms vec1 vec2 = true ->
      F32Facts.in_unit_interval s = true)
  /\ (forall word word_vec top_n r w sc,
        embedding_store store -> getitem store word = Return word_vec ->
        find_most_similar word store top_n = Return (Some r) -> In (w, sc) r ->
        exists x s,
          getitem store w = Return x /\ sc = Some s
          /\ cosine_similarity word w store = Return (Some s)
          /\ (dot_within_norms word_vec x = true -> F32Facts.in_unit_interval s = true)).
Proof.
  split.
  - intros word1 word2 vec1 vec2 s H1 H2 Hs Hin.
    rewrite (cosine_similarity_returned _ _ _ _ _ _ H1 H2 Hs).
    now apply cosine_within.
  - intros word wv top_n r w sc Hd Hw Hr Hin.
    unfold getitem in Hw.
    destruct (dict_get word store) as [wv' | ] eqn:Hw'; [ | discriminate].
    injection Hw as ->.
    destruct (find_most_similar_spec word wv store top_n Hd Hw') as (ranked & Hr' & Hp & _).
    rewrite Hr' in Hr. injection Hr as <-.
    apply slice_to_incl in Hin. apply (Permutation_in _ (Permutation_sym Hp)) in Hin.
    destruct (candidate_score word w sc wv store Hd Hw' Hin) as (_ & Hc & x & -> & Hcos).
    apply contains_true in Hc as [x' Hx'].
    exists x', (cosine wv x). unfold getitem. rewrite Hx'.
    repeat split; trivial.
    intros Hwithin.
    assert (E : cosine wv x = cosine wv x').
    { apply (cosine_similarity_returned store word w wv x'); trivial;
        unfold getitem; [now rewrite Hw' | now rewrite Hx']. }
    rewrite E. now apply cosine_within.
Qed.

Lemma scores_in_unit_interval_witness :
  F32Facts.in_unit_interval (S754_finite false 16674602 (-24)) = true
  /\ exists x s,
       getitem store_scenario "dog" = Return x
       /\ Some (S754_finite false 16674602 (-24)) = Some s
       /\ cosine_similarity "cat" "dog" store_scenario = Return (Some s)
       /\ (dot_within_norms [F32.one; F32.zero; F32.zero] x = true ->
           F32Facts.in_unit_interval s = true).
Proof.
  split.
  - apply (proj1 (scores_in_unit_interval store_scenario) "cat"%string "dog"%string
             [F32.one; F32.zero; F32.zero]
             [S754_finite false 15099494 (-24); S754_finite false 13421773 (-27); F32.zero]);
      reflexivity.
  - eapply (proj2 (scores_in_unit_interval store_scenario) "cat"%string
              [F32.one; F32.zero; F32.zero] 5 _ "dog"%string).
    + apply embedding_storeb_ok. reflexivity.
    + reflexivity.
    + vm_compute. reflexivity.
    + left. reflexivity.
Defined.

(** The loader gives [store_scenario] for the scenario's three lines. *)
Example scenario_store :
  load_glove_model lines_scenario = Return store_scenario.
Proof. reflexivity. Qed.

(** The two vectors [1, 1] of [store_2d] are not within their norms: the
    product of the rounded norms is below the dot product 2. *)
Example parallel_not_within : dot_within_norms (vec [1; 1]) (vec [1; 1]) = false.
Proof. reflexivity. Qed.

(** The vectors [3, 4] and [4, 3] of [store_2d]: the inputs are exact and
    the quotient 24/25 is rounded. *)
Example rounded_quotient_within :
  exact_inputs (vec [3; 4]) (vec [4; 3]) = true
  /\ dot_within_norms (vec [3; 4]) (vec [4; 3]) = true
  /\ cosine_similarity "c" "d" store_2d = Return (Some (S754_finite false 16106127 (-24))).
Proof. repeat split. Qed.

(** C8 fails as stated: "a" and "b" have the vector [1, 1]; their dot
    product is 2, each norm is the float nearest to the square root of 2,
    the product of the norms rounds to the float below 2, and the quotient
    is the float above 1.  It is also the top score of the ranking for "a".
    For the zero vector "z" the score is NaN. *)
Lemma rounded_score_above_one :
  embedding_store store_2d
  /\ cosine_similarity "a" "b" store_2d = Return (Some (S754_finite false 8388609 (-23)))
  /\ F32.ltb F32.one (S754_finite false 8388609 (-23)) = true
  /\ F32Facts.in_unit_interval (S754_finite false 8388609 (-23)) = false
  /\ find_most_similar "a" store_2d 1
     = Return (Some [("b"%string, Some (S754_finite false 8388609 (-23)))])
  /\ cosine_similarity "a" "z" store_2d = Return (Some F32.nan)
  /\ F32Facts.in_unit_interval F32.nan = false.
Proof.
  split; [apply embedding_storeb_ok; reflexivity | ].
  repeat split.
Qed.

(** ** The specification's scenario

    The store read from the cat, dog and car lines: "dog" is the nearest
    word to "cat", with the float 16674602 * 2^-24 (0.99388...) as score. *)
Example scenario_cat_dog :
  exists store,
    load_glove_model lines_scenario = Return store
    /\ cosine_similarity "cat" "dog" store
       = Return (Some (S754_finite false 16674602 (-24)))
    /\ find_most_similar "cat" store 1
       = Return (Some [("dog"%string, Some (S754_finite false 16674602 (-24)))]).
Proof. eexists. split; [reflexivity | ]. split; reflexivity. Qed.

(** * Further properties of the code *)

(** ** The loader *)

(** X1. [load_glove_model] returns a store exactly when every line has a
    word and only float literals behind it; otherwise it raises. *)
Theorem load_returns_iff (lines : list string) :
  (exists store, load_glove_model lines = Return store)
  <-> forallb line_ok lines = true.
Proof.
  split.
  - intros [store H]. apply forallb_forall. intros line Hin.
    destruct (line_ok line) eqn:E; trivial.
    destruct (load_loop_bad lines line Hin E []) as [e He].
    unfold load_glove_model in H. congruence.
  - intros H. apply (load_loop_ok lines H []).
Qed.

Lemma existsb_eqb_In (w : string) (l : list string) :
  existsb (String.eqb w) l = true <-> In w l.
Proof.
  rewrite existsb_exists. split.
  - intros (x & Hx & E). apply String.eqb_eq in E. now subst.
  - intros H. exists w. split; [exact H | apply String.eqb_refl].
Qed.

Lemma load_loop_keys (l : list string) :
  forall d d', load_loop l d = Return d' ->
               keys d' = keys d ++ first_occurrences (keys d) (line_words l).
Proof.
  induction l as [ | line l IH]; simpl; intros d d' H.
  - injection H as <-. now rewrite app_nil_r.
  - destruct (Py.split line) as [ | w toks]; [discriminate | ].
    destruct (np_array_float32 toks) as [a | ]; [ | discriminate]. simpl in H.
    rewrite (IH _ _ H). simpl.
    destruct (existsb (String.eqb w) (keys d)) eqn:E.
    + rewrite keys_setitem_present; trivial.
      apply existsb_eqb_In in E. intros Hn. now apply dict_get_None in Hn.
    + assert (Hn : dict_get w d = None).
      { apply dict_get_None. intros Hin. apply existsb_eqb_In in Hin. congruence. }
      rewrite setitem_fresh by exact Hn.
      replace (keys (d ++ [(w, a)])) with (keys d ++ [w])
        by (unfold keys; now rewrite map_app).
      now rewrite <- app_assoc.
Qed.

(** X2. The store lists the words in the order in which they first occur
    in the file: its keys are the first occurrences of the lines' words. *)
Theorem load_keys_first_occurrence (lines : list string) (store : dict ndarray) :
  load_glove_model lines = Return store ->
  keys store = first_occurrences [] (line_words lines).
Proof.
  intros H. apply (load_loop_keys lines [] store H).
Qed.

Lemma load_keys_first_occurrence_witness :
  keys [("a"%string, vec [1; 0]); ("b"%string, vec [1])]
  = first_occurrences [] (line_words lines_ragged).
Proof.
  apply (load_keys_first_occurrence lines_ragged). reflexivity.
Defined.

Lemma first_occurrences_In (seen ws : list string) (w : string) :
  In w (first_occurrences seen ws) <-> In w ws /\ ~ In w seen.
Proof.
  revert seen. induction ws as [ | w0 ws IH]; simpl; intros seen; [tauto | ].
  destruct (existsb (String.eqb w0) seen) eqn:E.
  - rewrite IH. apply existsb_eqb_In in E.
    split; [tauto | ]. intros [[<- | H] Hn]; tauto.
  - assert (Hn0 : ~ In w0 seen).
    { intros Hin. apply existsb_eqb_In in Hin. congruence. }
    simpl. rewrite IH. split.
    + intros [<- | [H Hn]]; [tauto | ]. split; [tauto | ].
      intros Hin. apply Hn. apply in_or_app. now left.
    + intros [[<- | H] Hn]; [tauto | ].
      destruct (string_dec w0 w) as [<- | Hne]; [tauto | ].
      right. split; trivial. intros Hin. apply in_app_or in Hin as [Hin | [E' | []]]; tauto.
Qed.

Lemma line_words_In (lines : list string) (w : string) :
  In w (line_words lines) <-> exists line, In line lines /\ line_word line = Some w.
Proof.
  unfold line_words, line_word. rewrite in_flat_map. split.
  - intros (line & Hin & Hw). exists line. split; trivial.
    destruct (Py.split line) as [ | w0 toks]; [destruct Hw | ].
    destruct Hw as [<- | []]. reflexivity.
  - intros (line & Hin & Hw). exists line. split; trivial.
    destruct (Py.split line) as [ | w0 toks]; [discriminate | ].
    injection Hw as <-. now left.
Qed.

(** X3. A word is in the returned store exactly when it heads some line of
    the file: the loader neither drops nor invents words. *)
Theorem load_contains_iff (lines : list string) (store : dict ndarray) (w : string) :
  load_glove_model lines = Return store ->
  (contains w store = true <-> exists line, In line lines /\ line_word line = Some w).
Proof.
  intros H. rewrite <- line_words_In.
  assert (E : contains w store = true <-> In w (keys store)).
  { destruct (contains w store) eqn:C.
    - apply contains_true in C as [x Hx]. apply dict_get_In in Hx.
      apply (in_map fst) in Hx. tauto.
    - apply contains_false in C. apply dict_get_None in C.
      split; [discriminate | tauto]. }
  pose proof (load_loop_keys lines [] store H) as K. simpl in K.
  rewrite E, K, first_occurrences_In.
  simpl. tauto.
Qed.

Lemma load_contains_iff_witness :
  contains "b" [("a"%string, vec [1; 0]); ("b"%string, vec [1])] = true
  <-> exists line, In line lines_ragged /\ line_word line = Some "b"%string.
Proof.
  apply (load_contains_iff lines_ragged). reflexivity.
Defined.

Lemma split_tokens (s : string) :
  Forall (fun t => t <> EmptyString /\ no_space t = true) (Py.split s).
Proof.
  induction s as [ | c s IH]; simpl; [constructor | ].
  destruct (Py.isspace c) eqn:Ec; [exact IH | ].
  assert (Hc : String c EmptyString <> EmptyString
               /\ no_space (String c EmptyString) = true).
  { split; [discriminate | simpl; now rewrite Ec]. }
  destruct s as [ | c' s']; [now repeat constructor | ].
  destruct (Py.isspace c') eqn:Ec'; [now constructor | ].
  destruct (Py.split (String c' s')) as [ | t ts]; [now repeat constructor | ].
  inversion IH as [ | ? ? [Ht Hs] Hts]; subst. constructor; trivial.
  split; [discriminate | simpl; now rewrite Ec, Hs].
Qed.

(** X4. Every word of a returned store is a token of [str.split()]: it is
    not empty and contains no whitespace character. *)
Theorem load_words_are_tokens (lines : list string) (store : dict ndarray) (w : string) :
  load_glove_model lines = Return store -> In w (keys store) ->
  w <> EmptyString /\ no_space w = true.
Proof.
  intros H Hin.
  pose proof (load_loop_keys lines [] store H) as K. simpl in K.
  rewrite K in Hin. apply first_occurrences_In in Hin as [Hin _].
  unfold line_words in Hin. apply in_flat_map in Hin as (line & _ & Hw).
  pose proof (split_tokens line) as Ht.
  destruct (Py.split line) as [ | w0 toks]; [destruct Hw | ].
  destruct Hw as [<- | []]. now inversion Ht.
Qed.

Lemma load_words_are_tokens_witness :
  "apple"%string <> EmptyString /\ no_space "apple" = true.
Proof.
  apply (load_words_are_tokens lines_apple [("apple"%string, vec [0; 1])]).
  - reflexivity.
  - simpl. tauto.
Defined.

(** ** Pairwise similarity, continued *)

(** X5. The only exception of [cosine_similarity] is numpy's [ValueError],
    and it is raised exactly when both words are in the dict with vectors
    of different lengths. *)
Theorem cosine_similarity_raises_iff (d : dict ndarray) (word1 word2 : string) (e : exn) :
  cosine_similarity word1 word2 d = Raise e
  <-> e = ValueError
      /\ exists a b, getitem d word1 = Return a /\ getitem d word2 = Return b
                     /\ List.length a <> List.length b.
Proof.
  unfold getitem. split.
  - intros H.
    destruct (dict_get word1 d) as [a | ] eqn:Ha.
    + destruct (dict_get word2 d) as [b | ] eqn:Hb.
      * rewrite (cosine_similarity_present _ _ _ _ _ Ha Hb) in H.
        destruct (Nat.eqb_spec (List.length a) (List.length b)); [discriminate | ].
        injection H as <-. split; trivial. now exists a, b.
      * unfold cosine_similarity, contains in H. rewrite Ha, Hb in H. discriminate.
    + unfold cosine_similarity, contains in H. rewrite Ha in H. discriminate.
  - intros (-> & a & b & Ha & Hb & Hne).
    destruct (dict_get word1 d) as [a' | ] eqn:Ha'; [ | discriminate].
    destruct (dict_get word2 d) as [b' | ] eqn:Hb'; [ | discriminate].
    injection Ha as ->. injection Hb as ->.
    rewrite (cosine_similarity_present _ _ _ _ _ Ha' Hb').
    now destruct (Nat.eqb_spec (List.length a) (List.length b)).
Qed.

Lemma binary_round_aux_sign (mx ex : Z) (lx : location) :
  sign_clear (binary_round_aux F32.prec F32.emax false mx ex lx) = true.
Proof.
  unfold binary_round_aux.
  destruct (shr_fexp F32.prec F32.emax mx ex lx) as [mrs e'].
  destruct (shr_fexp F32.prec F32.emax _ e' loc_Exact) as [mrs' e''].
  destruct (shr_m mrs'); trivial.
  now destruct (e'' <=? F32.emax - F32.prec).
Qed.

Lemma mul_sign (x y : float32) :
  sign_clear x = true -> sign_clear y = true -> sign_clear (F32.mul x y) = true.
Proof.
  unfold F32.mul.
  destruct x as [[ | ] | [ | ] | | [ | ] mx ex], y as [[ | ] | [ | ] | | [ | ] my ey];
    simpl; try discriminate; trivial.
  intros _ _. apply binary_round_aux_sign.
Qed.

Lemma square_sign (x : float32) : sign_clear (F32.mul x x) = true.
Proof.
  unfold F32.mul. destruct x as [[ | ] | [ | ] | | [ | ] mx ex]; simpl; trivial;
    apply binary_round_aux_sign.
Qed.

Lemma add_sign (x y : float32) :
  sign_clear x = true -> sign_clear y = true -> sign_clear (F32.add x y) = true.
Proof.
  unfold F32.add.
  destruct x as [[ | ] | [ | ] | | [ | ] mx ex], y as [[ | ] | [ | ] | | [ | ] my ey];
    simpl; try discriminate; trivial.
  intros _ _. unfold binary_normalize, binary_round.
  destruct (shl_align mx ex (Z.min ex ey)) as [m1 e1].
  destruct (shl_align my ey (Z.min ex ey)) as [m2 e2]. simpl.
  destruct (shl_align (m1 + m2) (Z.min ex ey) _) as [mz ez].
  apply binary_round_aux_sign.
Qed.

Lemma sqrt_sign (x : float32) : sign_clear x = true -> sign_clear (F32.sqrt x) = true.
Proof.
  unfold F32.sqrt. destruct x as [[ | ] | [ | ] | | [ | ] mx ex]; simpl;
    try discriminate; trivial.
  intros _. destruct (SFsqrt_core_binary F32.prec F32.emax (Z.pos mx) ex) as [[mz ez] lz].
  apply binary_round_aux_sign.
Qed.

Lemma div_sign (x y : float32) :
  sign_clear x = true -> sign_clear y = true -> sign_clear (F32.div x y) = true.
Proof.
  unfold F32.div.
  destruct x as [[ | ] | [ | ] | | [ | ] mx ex], y as [[ | ] | [ | ] | | [ | ] my ey];
    simpl; try discriminate; trivial.
  intros _ _.
  destruct (SFdiv_core_binary F32.prec F32.emax (Z.pos mx) ex (Z.pos my) ey) as [[mz ez] lz].
  apply binary_round_aux_sign.
Qed.

Lemma dot_self_sign (a : ndarray) :
  forall tmp, sign_clear tmp = true -> sign_clear (dot_loop tmp a a) = true.
Proof.
  induction a as [ | x a IH]; simpl; intros tmp H; trivial.
  apply IH, add_sign; [exact H | apply square_sign].
Qed.

Lemma norm_sign (a : ndarray) : sign_clear (norm a) = true.
Proof. unfold norm. now apply sqrt_sign, dot_self_sign. Qed.

Lemma sign_clear_not_negative (x : float32) :
  sign_clear x = true -> F32.is_nan x || F32.leb F32.zero x = true.
Proof.
  destruct x as [[ | ] | [ | ] | | [ | ] mx ex]; simpl; try discriminate; trivial.
Qed.

(** X6. The similarity of a present word with itself is never negative:
    the call returns a float that is NaN or at least zero. *)
Theorem self_similarity_not_negative (d : dict ndarray) (word : string) :
  contains word d = true ->
  exists s, cosine_similarity word word d = Return (Some s)
            /\ F32.is_nan s || F32.leb F32.zero s = true.
Proof.
  intros H. apply contains_true in H as [a Ha].
  rewrite (cosine_similarity_present _ _ _ _ _ Ha Ha), Nat.eqb_refl.
  eexists. split; [reflexivity | ].
  apply sign_clear_not_negative. unfold cosine.
  apply div_sign; [now apply dot_self_sign | apply mul_sign; apply norm_sign].
Qed.

Lemma self_similarity_not_negative_witness :
  exists s, cosine_similarity "z" "z" store_2d = Return (Some s)
            /\ F32.is_nan s || F32.leb F32.zero s = true.
Proof.
  apply (self_similarity_not_negative store_2d "z"). reflexivity.
Defined.

(** ** Ranking, continued *)

Lemma mismatched_false (word : string) (wv : ndarray) (d : dict ndarray) :
  mismatched word wv d = false ->
  forall w x, In (w, x) d -> w <> word -> List.length x = List.length wv.
Proof.
  unfold mismatched. intros H w x Hin Hne.
  destruct (Nat.eqb_spec (List.length x) (List.length wv)) as [E | E]; trivial.
  exfalso. assert (Ht : existsb (fun e => negb (String.eqb (fst e) word)
              && negb (Nat.eqb (List.length (snd e)) (List.length wv))) d = true).
  { apply existsb_exists. exists (w, x). split; trivial. simpl.
    apply String.eqb_neq in Hne. rewrite Hne. simpl.
    now apply negb_true_iff, Nat.eqb_neq. }
  congruence.
Qed.

Lemma mismatched_true (word : string) (wv : ndarray) (d : dict ndarray) :
  mismatched word wv d = true <->
  exists w x, In (w, x) d /\ w <> word /\ List.length x <> List.length wv.
Proof.
  unfold mismatched. rewrite existsb_exists. split.
  - intros ([w x] & Hin & H). simpl in H. apply andb_prop in H as [H1 H2].
    exists w, x. repeat split; trivial.
    + now apply String.eqb_neq, negb_true_iff.
    + now apply Nat.eqb_neq, negb_true_iff.
  - intros (w & x & Hin & Hne & Hlen). exists (w, x). split; trivial. simpl.
    apply String.eqb_neq in Hne. apply Nat.eqb_neq in Hlen. now rewrite Hne, Hlen.
Qed.

(** The loop on a dict whose other vectors all have the query's length. *)
Lemma similarities_loop_returns (word : string) (wv : ndarray) (d : dict ndarray) :
  wf_dict d -> dict_get word d = Some wv -> mismatched word wv d = false ->
  forall its acc,
    incl its d -> wf_dict its ->
    (forall k, In k (keys its) -> dict_get k acc = None) ->
    similarities_loop word d its acc = Return (acc ++ candidates word wv its).
Proof.
  intros Hwf Hw Hdim. induction its as [ | [w x] its IH]; intros acc Hincl Hnd Hacc.
  - simpl. now rewrite app_nil_r.
  - unfold wf_dict, keys in Hnd. simpl in Hnd. inversion Hnd as [ | ? ? Hk Hnd']; subst.
    assert (Hin : In (w, x) d) by (apply Hincl; now left).
    assert (Hincl' : incl its d) by (intros e He; apply Hincl; now right).
    unfold candidates. simpl.
    destruct (String.eqb_spec w word) as [E | E]; simpl.
    + apply IH; trivial. intros k Hk'. apply Hacc. now right.
    + rewrite (cosine_similarity_present d word w wv x Hw (In_dict_get d w x Hwf Hin)).
      rewrite (mismatched_false word wv d Hdim w x Hin E), Nat.eqb_refl. simpl.
      rewrite setitem_fresh by (apply Hacc; now left).
      fold (candidates word wv its). rewrite IH; trivial.
      * now rewrite <- app_assoc.
      * intros k Hk'. apply dict_get_None. unfold keys. rewrite map_app. simpl.
        intros Hin'. apply in_app_or in Hin' as [Hin' | [<- | []]].
        -- assert (Hn : dict_get k acc = None) by (apply Hacc; now right).
           now apply dict_get_None in Hn.
        -- now apply Hk.
Qed.

(** The loop stops with [ValueError] at the first vector of another length. *)
Lemma similarities_loop_raises (word : string) (wv : ndarray) (d : dict ndarray) :
  wf_dict d -> dict_get word d = Some wv ->
  forall its acc,
    incl its d -> mismatched word wv its = true ->
    similarities_loop word d its acc = Raise ValueError.
Proof.
  intros Hwf Hw. induction its as [ | [w x] its IH]; intros acc Hincl Hmis.
  - discriminate.
  - assert (Hin : In (w, x) d) by (apply Hincl; now left).
    assert (Hincl' : incl its d) by (intros e He; apply Hincl; now right).
    unfold mismatched in Hmis. simpl in Hmis. simpl.
    destruct (String.eqb w word) eqn:E; simpl in *.
    + now apply IH.
    + rewrite (cosine_similarity_present d word w wv x Hw (In_dict_get d w x Hwf Hin)).
      rewrite (Nat.eqb_sym (List.length wv)).
      destruct (Nat.eqb (List.length x) (List.length wv)); simpl in *; trivial.
      now apply IH.
Qed.

(** X7. On a dict, a query for a present word raises exactly when some
    other word's vector has another length than the query's vector, and the
    exception is then numpy's [ValueError]; a query for an absent word
    never raises. *)
Theorem find_most_similar_raises_iff (d : dict ndarray) (word : string) (top_n : Z) (e : exn) :
  wf_dict d ->
  (find_most_similar word d top_n = Raise e
   <-> e = ValueError
       /\ exists word_vec w x,
            getitem d word = Return word_vec /\ In (w, x) d /\ w <> word
            /\ List.length x <> List.length word_vec).
Proof.
  intros Hwf. unfold find_most_similar, getitem, contains, items.
  destruct (dict_get word d) as [wv | ] eqn:Hw; simpl.
  - destruct (mismatched word wv d) eqn:Hm.
    + rewrite (similarities_loop_raises word wv d Hwf Hw d [] (incl_refl d) Hm). simpl.
      apply mismatched_true in Hm as (w & x & Hin & Hne & Hlen).
      split; [intros H; injection H as <- | intros [-> _]; reflexivity].
      split; trivial. now exists wv, w, x.
    + rewrite (similarities_loop_returns word wv d Hwf Hw Hm d []);
        [ | apply incl_refl | exact Hwf | reflexivity ].
      simpl.
      destruct (sorted_reverse_returns _ (candidates_have_float word wv d)) as (r & -> & _).
      simpl. split; [discriminate | ].
      intros (_ & wv' & w & x & Hwv & Hin & Hne & Hlen). injection Hwv as <-.
      assert (Ht : mismatched word wv d = true) by (apply mismatched_true; eauto).
      congruence.
  - split; [discriminate | ]. intros (_ & wv & _ & _ & H & _). discriminate.
Qed.

Lemma find_most_similar_raises_iff_witness :
  find_most_similar "a" [("a"%string, vec [1; 0]); ("b"%string, vec [1])] 5
  = Raise ValueError
  <-> ValueError = ValueError
      /\ exists word_vec w x,
           getitem [("a"%string, vec [1; 0]); ("b"%string, vec [1])] "a" = Return word_vec
           /\ In (w, x) [("a"%string, vec [1; 0]); ("b"%string, vec [1])]
           /\ w <> "a"%string /\ List.length x <> List.length word_vec.
Proof.
  apply (find_most_similar_raises_iff [("a"%string, vec [1; 0]); ("b"%string, vec [1])]).
  apply distinct_NoDup. reflexivity.
Defined.

Lemma slice_to_slice_to {A : Type} (n m : Z) (l : list A) :
  0 <= n <= m -> slice_to n (slice_to m l) = slice_to n l.
Proof.
  intros H. unfold slice_to.
  destruct (Z.ltb_spec n 0); [lia | ]. destruct (Z.ltb_spec m 0); [lia | ].
  rewrite length_firstn, firstn_firstn. f_equal. lia.
Qed.

(** X8. For [0 <= n <= m] the answer for [top_n = n] is the first [n]
    pairs of the answer for [top_n = m], whatever the dict and the word;
    a [None] or an exception is the same for both. *)
Theorem find_most_similar_prefix (d : dict ndarray) (word : string) (n m : Z) :
  0 <= n <= m ->
  find_most_similar word d n
  = match find_most_similar word d m with
    | Return (Some r) => Return (Some (slice_to n r))
    | o => o
    end.
Proof.
  intros H. unfold find_most_similar.
  destruct (negb (contains word d)); trivial.
  destruct (getitem d word); simpl; trivial.
  destruct (similarities_loop word d (items d) []); simpl; trivial.
  destruct (sorted_reverse (items _)); simpl; trivial.
  now rewrite slice_to_slice_to.
Qed.

Lemma find_most_similar_prefix_witness :
  find_most_similar "a" store_2d 2
  = match find_most_similar "a" store_2d 4 with
    | Return (Some r) => Return (Some (slice_to 2 r))
    | o => o
    end.
Proof.
  apply (find_most_similar_prefix store_2d "a" 2 4). lia.
Defined.

(** One sorted list serves every [top_n]. *)
Lemma find_most_similar_ranking (word : string) (wv : ndarray) (d : dict ndarray) :
  embedding_store d -> dict_get word d = Some wv ->
  exists ranked,
    sorted_reverse (candidates word wv d) = Return ranked
    /\ Permutation (candidates word wv d) ranked
    /\ forall top_n,
         find_most_similar word d top_n = Return (Some (slice_to top_n ranked)).
Proof.
  intros Hd Hw.
  destruct (sorted_reverse_returns _ (candidates_have_float word wv d)) as (r & Hr & Hp).
  exists r. repeat split; trivial. intros top_n.
  unfold find_most_similar, items, getitem, contains. rewrite Hw. simpl.
  rewrite (similarities_loop_candidates word wv d Hd Hw d []);
    [ | apply incl_refl | apply Hd | reflexivity ].
  simpl. now rewrite Hr.
Qed.

(** X9. A negative [top_n] drops pairs from the end of the ranking: the
    answer is the complete ranking without its last [-top_n] pairs, and
    has [max(vocabulary_size - 1 + top_n, 0)] pairs. *)
Theorem find_most_similar_negative (d : dict ndarray) (word : string) (top_n : Z) :
  embedding_store d -> contains word d = true -> top_n < 0 ->
  exists full r,
    find_most_similar word d (vocabulary_size d) = Return (Some full)
    /\ find_most_similar word d top_n = Return (Some r)
    /\ r = firstn (List.length full - Z.to_nat (- top_n)) full
    /\ Z.of_nat (List.length r) = Z.max (vocabulary_size d - 1 + top_n) 0.
Proof.
  intros Hd Hin Hneg. pose proof Hin as Hin'.
  apply contains_true in Hin' as [wv Hw].
  destruct (find_most_similar_ranking word wv d Hd Hw) as (ranked & _ & Hp & Hr).
  pose proof (candidates_length word wv d (proj1 Hd) Hin) as Hlen.
  rewrite (Permutation_length Hp) in Hlen.
  exists ranked, (slice_to top_n ranked).
  split; [rewrite Hr, slice_to_all; [reflexivity | lia] | ].
  split; [apply Hr | ].
  unfold slice_to. destruct (Z.ltb_spec top_n 0); [ | lia].
  split.
  - f_equal. lia.
  - rewrite length_firstn. lia.
Qed.

Lemma find_most_similar_negative_witness :
  exists full r,
    find_most_similar "a" store_2d (vocabulary_size store_2d) = Return (Some full)
    /\ find_most_similar "a" store_2d (-1) = Return (Some r)
    /\ r = firstn (List.length full - Z.to_nat (- -1)) full
    /\ Z.of_nat (List.length r) = Z.max (vocabulary_size store_2d - 1 + -1) 0.
Proof.
  apply (find_most_similar_negative store_2d "a" (-1)).
  - apply embedding_storeb_ok. reflexivity.
  - reflexivity.
  - lia.
Defined.

Lemma NoDup_firstn {A : Type} (n : nat) (l : list A) : NoDup l -> NoDup (firstn n l).
Proof.
  intros H. rewrite <- (firstn_skipn n l) in H. now apply NoDup_app_remove_r in H.
Qed.

Lemma candidates_NoDup (word : string) (wv : ndarray) (d : dict ndarray) :
  wf_dict d -> NoDup (map fst (candidates word wv d)).
Proof.
  intros H. rewrite candidates_keys. now apply NoDup_filter.
Qed.

(** X10. On an Embedding Store no word occurs twice in an answer, and every
    word of the answer is a word of the store other than the query. *)
Theorem ranking_words_distinct (d : dict ndarray) (word : string) (top_n : Z)
  (r : list (string * score)) :
  embedding_store d -> find_most_similar word d top_n = Return (Some r) ->
  NoDup (map fst r)
  /\ forall w, In w (map fst r) -> contains w d = true /\ w <> word.
Proof.
  intros Hd Hr.
  destruct (dict_get word d) as [wv | ] eqn:Hw.
  - destruct (find_most_similar_ranking word wv d Hd Hw) as (ranked & _ & Hp & Hr').
    rewrite Hr' in Hr. injection Hr as <-. split.
    + unfold slice_to. rewrite <- firstn_map. apply NoDup_firstn.
      eapply Permutation_NoDup; [apply Permutation_map, Hp | ].
      apply candidates_NoDup, Hd.
    + intros w Hin. apply in_map_iff in Hin as ([w' s] & E & Hin). simpl in E. subst w'.
      apply slice_to_incl in Hin. apply (Permutation_in _ (Permutation_sym Hp)) in Hin.
      destruct (candidate_score word w s wv d Hd Hw Hin) as (Hne & Hc & _). tauto.
  - unfold find_most_similar, contains in Hr. rewrite Hw in Hr. discriminate.
Qed.

Lemma ranking_words_distinct_witness :
  NoDup (map fst [("dog"%string, Some (S754_finite false 16674601 (-24)))])
  /\ forall w, In w (map fst [("dog"%string, Some (S754_finite false 16674601 (-24)))]) ->
                contains w store_3d = true /\ w <> "cat"%string.
Proof.
  apply (ranking_words_distinct store_3d "cat" 1).
  - apply embedding_storeb_ok. reflexivity.
  - reflexivity.
Defined.

Lemma StronglySorted_app_inv {A : Type} (R : A -> A -> Prop) (l1 l2 : list A) :
  StronglySorted R (l1 ++ l2) -> forall a b, In a l1 -> In b l2 -> R a b.
Proof.
  induction l1 as [ | x l1 IH]; simpl; intros H a b Ha Hb; [destruct Ha | ].
  inversion H as [ | ? ? Hs Hall]; subst. destruct Ha as [<- | Ha].
  - rewrite Forall_forall in Hall. apply Hall, in_or_app. now right.
  - now apply IH.
Qed.

(** X11. The pairs of an answer are the best ones: on an Embedding Store
    without NaN scores, every returned score is at least the score of every
    candidate that was not returned. *)
Theorem ranking_dominates (d : dict ndarray) (word : string) (top_n : Z)
  (r : list (string * score)) (w w' : string) (s s' : float32) :
  embedding_store d -> nan_free word d = true ->
  find_most_similar word d top_n = Return (Some r) ->
  In (w, Some s) r ->
  w' <> word -> cosine_similarity word w' d = Return (Some s') ->
  ~ In w' (map fst r) ->
  F32.leb s' s = true.
Proof.
  intros Hd Hfree Hr Hin Hne Hcos Hout.
  destruct (dict_get word d) as [wv | ] eqn:Hw.
  2: { unfold find_most_similar, contains in Hr. rewrite Hw in Hr. discriminate. }
  destruct (find_most_similar_spec word wv d top_n Hd Hw) as (ranked & Hr' & Hp & Hs).
  rewrite Hr' in Hr. injection Hr as <-.
  specialize (Hs (nan_free_plain word wv d Hd Hw Hfree)).
  destruct (dict_get w' d) as [x' | ] eqn:Hw'.
  2: { unfold cosine_similarity, contains in Hcos. rewrite Hw, Hw' in Hcos. discriminate. }
  assert (Es : s' = cosine wv x').
  { apply (cosine_similarity_returned d word w' wv x'); trivial;
      unfold getitem; [now rewrite Hw | now rewrite Hw']. }
  assert (Hc : In (w', Some s') (candidates word wv d)).
  { unfold candidates. apply in_map_iff. exists (w', x'). split; [now rewrite Es | ].
    apply filter_In. split; [now apply dict_get_In | ].
    simpl. now apply negb_true_iff, String.eqb_neq. }
  apply (Permutation_in _ Hp) in Hc.
  unfold slice_to in *. set (k := Z.to_nat _) in *.
  rewrite <- (firstn_skipn k ranked) in Hc, Hs.
  apply in_app_or in Hc as [Hc | Hc].
  - exfalso. apply Hout. now apply (in_map fst) in Hc.
  - exact (StronglySorted_app_inv _ _ _ Hs _ _ Hin Hc).
Qed.

Lemma ranking_dominates_witness :
  F32.leb F32.zero (S754_finite false 16674601 (-24)) = true.
Proof.
  apply (ranking_dominates store_3d "cat" 1
           [("dog"%string, Some (S754_finite false 16674601 (-24)))] "dog" "car").
  - apply embedding_storeb_ok. reflexivity.
  - reflexivity.
  - reflexivity.
  - simpl. tauto.
  - discriminate.
  - reflexivity.
  - simpl. intros [H | []]. discriminate.
Defined.

Lemma insert_desc_shape (x : string * score) (l r : list (string * score)) :
  insert_desc x l = Return r ->
  exists l1 l2, l = l1 ++ l2 /\ r = l1 ++ x :: l2
                /\ Forall (fun y => score_lt (snd x) (snd y) = Return true) l1.
Proof.
  revert r. induction l as [ | y l IH]; simpl; intros r H.
  - injection H as <-. now exists [], [].
  - destruct (score_lt (snd x) (snd y)) as [[ | ] | ] eqn:E; simpl in H; try discriminate.
    + destruct (insert_desc x l) as [r' | ]; [ | discriminate]. simpl in H.
      injection H as <-. destruct (IH r' eq_refl) as (l1 & l2 & -> & -> & Hall).
      exists (y :: l1), l2. repeat split; trivial. now constructor.
    + injection H as <-. now exists [], (y :: l).
Qed.

Lemma listed_before_insert {A : Type} (a b x : A) (l1 l2 : list A) :
  listed_before a b (l1 ++ l2) -> listed_before a b (l1 ++ x :: l2).
Proof.
  induction l1 as [ | y l1 IH]; simpl; [tauto | ].
  intros [[-> Hb] | H]; [left | right; now apply IH].
  split; trivial. apply in_app_or in Hb as [Hb | Hb]; apply in_or_app; simpl; tauto.
Qed.

Lemma listed_before_here {A : Type} (a b : A) (l1 l2 : list A) :
  In b l2 -> listed_before a b (l1 ++ a :: l2).
Proof.
  intros Hb. induction l1 as [ | y l1 IH]; simpl; tauto.
Qed.

Lemma listed_before_In {A : Type} (a b : A) (l : list A) :
  listed_before a b l -> In a l /\ In b l.
Proof.
  induction l as [ | x l IH]; simpl; [tauto | ].
  intros [[-> Hb] | H]; [tauto | ]. destruct (IH H). tauto.
Qed.

Lemma listed_before_filter {A : Type} (f : A -> bool) (a b : A) (l : list A) :
  f a = true -> f b = true -> listed_before a b l -> listed_before a b (filter f l).
Proof.
  intros Ha Hb. induction l as [ | x l IH]; simpl; [tauto | ].
  intros [[-> Hin] | H].
  - rewrite Ha. left. split; trivial. apply filter_In. tauto.
  - destruct (f x); simpl; [right | ]; now apply IH.
Qed.

Lemma listed_before_map {A B : Type} (g : A -> B) (a b : A) (l : list A) :
  listed_before a b l -> listed_before (g a) (g b) (map g l).
Proof.
  induction l as [ | x l IH]; simpl; [tauto | ].
  intros [[-> Hin] | H]; [left | right; now apply IH].
  split; trivial. now apply in_map.
Qed.

Lemma listed_before_keys (d : dict ndarray) (w1 w2 : string) :
  listed_before w1 w2 (keys d) ->
  exists x1 x2, listed_before (w1, x1) (w2, x2) d.
Proof.
  unfold keys. induction d as [ | [k x] d IH]; simpl; [tauto | ].
  intros [[-> Hin] | H].
  - apply in_map_iff in Hin as ([k2 x2] & E & Hin). simpl in E. subst k2.
    exists x, x2. now left.
  - destruct (IH H) as (x1 & x2 & Hb). exists x1, x2. now right.
Qed.

Lemma sorted_reverse_perm (l r : list (string * score)) :
  sorted_reverse l = Return r -> Permutation l r.
Proof.
  revert r. induction l as [ | x l IH]; simpl; intros r H.
  - injection H as <-. constructor.
  - destruct (sorted_reverse l) as [s | ]; [ | discriminate]. simpl in H.
    destruct (insert_desc_shape x s r H) as (l1 & l2 & -> & -> & _).
    apply Permutation_cons_app. now apply IH.
Qed.

(** Sorting never moves an item behind a later item of the list whose
    score is not greater. *)
Lemma sorted_reverse_stable (l r : list (string * score)) (a b : string * score)
  (sa sb : float32) :
  sorted_reverse l = Return r ->
  snd a = Some sa -> snd b = Some sb -> F32.ltb sa sb = false ->
  listed_before a b l -> listed_before a b r.
Proof.
  intros H Ha Hb Hlt. revert r H.
  induction l as [ | x l IH]; simpl; intros r H Hab; [destruct Hab | ].
  destruct (sorted_reverse l) as [s | ] eqn:Hs; [ | discriminate]. simpl in H.
  destruct (insert_desc_shape x s r H) as (l1 & l2 & -> & -> & Hall).
  destruct Hab as [[-> Hin] | Hab].
  - apply (Permutation_in _ (sorted_reverse_perm _ _ Hs)) in Hin.
    apply in_app_or in Hin as [Hin | Hin].
    + exfalso. rewrite Forall_forall in Hall. specialize (Hall b Hin).
      rewrite Ha, Hb in Hall. simpl in Hall. congruence.
    + now apply listed_before_here.
  - apply listed_before_insert. now apply IH.
Qed.

(** X12. Ties keep the store's order: on an Embedding Store without NaN
    scores, in the complete ranking a candidate stands in front of every
    candidate that comes later in the store and has no greater score. *)
Theorem ranking_keeps_store_order (d : dict ndarray) (word : string) (top_n : Z)
  (r : list (string * score)) (w1 w2 : string) (s1 s2 : float32) :
  embedding_store d -> nan_free word d = true ->
  vocabulary_size d - 1 <= top_n ->
  find_most_similar word d top_n = Return (Some r) ->
  listed_before w1 w2 (keys d) -> w1 <> word -> w2 <> word ->
  cosine_similarity word w1 d = Return (Some s1) ->
  cosine_similarity word w2 d = Return (Some s2) ->
  F32.ltb s1 s2 = false ->
  listed_before (w1, Some s1) (w2, Some s2) r.
Proof.
  intros Hd _ Htop Hr Hb Hn1 Hn2 Hc1 Hc2 Hlt.
  destruct (dict_get word d) as [wv | ] eqn:Hw.
  2: { unfold find_most_similar, contains in Hr. rewrite Hw in Hr. discriminate. }
  destruct (find_most_similar_ranking word wv d Hd Hw) as (ranked & Hs & Hp & Hr').
  rewrite Hr' in Hr. injection Hr as <-.
  assert (Hlen : Z.of_nat (List.length ranked) = vocabulary_size d - 1).
  { rewrite <- (Permutation_length Hp). apply candidates_length; [apply Hd | ].
    apply contains_true. now exists wv. }
  rewrite slice_to_all by lia.
  destruct (listed_before_keys d w1 w2 Hb) as (x1 & x2 & Hb').
  destruct (listed_before_In _ _ _ Hb') as [Hi1 Hi2].
  pose proof (In_dict_get d w1 x1 (proj1 Hd) Hi1) as Hx1.
  pose proof (In_dict_get d w2 x2 (proj1 Hd) Hi2) as Hx2.
  assert (E1 : s1 = cosine wv x1).
  { apply (cosine_similarity_returned d word w1 wv x1); trivial;
      unfold getitem; [now rewrite Hw | now rewrite Hx1]. }
  assert (E2 : s2 = cosine wv x2).
  { apply (cosine_similarity_returned d word w2 wv x2); trivial;
      unfold getitem; [now rewrite Hw | now rewrite Hx2]. }
  apply (sorted_reverse_stable (candidates word wv d) ranked _ _ s1 s2 Hs); trivial.
  unfold candidates. subst s1 s2.
  apply (listed_before_map (fun e => (fst e, Some (cosine wv (snd e)))) (w1, x1) (w2, x2)).
  apply listed_before_filter; trivial; simpl; now apply negb_true_iff, String.eqb_neq.
Qed.

Lemma ranking_keeps_store_order_witness :
  listed_before ("x"%string, Some F32.zero) ("y"%string, Some F32.zero)
    [("w"%string, Some F32.one); ("x"%string, Some F32.zero); ("y"%string, Some F32.zero)].
Proof.
  apply (ranking_keeps_store_order store_ties "q" 3).
  - apply embedding_storeb_ok. reflexivity.
  - reflexivity.
  - vm_compute. discriminate.
  - reflexivity.
  - simpl. tauto.
  - discriminate.
  - discriminate.
  - reflexivity.
  - reflexivity.
  - reflexivity.
Defined.

(** ** Loading, then querying *)

Lemma load_embedding_store (lines : list string) (store : dict ndarray) (n : nat) :
  load_glove_model lines = Return store -> token_count n lines = true ->
  embedding_store store.
Proof.
  intros H Hn. split.
  - eapply load_loop_wf; [ | exact H]. constructor.
  - unfold token_count in Hn. rewrite forallb_forall in Hn.
    assert (Hlen : forall w x, In (w, x) store -> List.length x = n).
    { intros w x Hin.
      destruct (load_loop_entries lines _ _ H w x Hin) as [[] | (line & toks & Hl & Hs & Ha)].
      apply np_array_float32_length in Ha. apply Hn in Hl. rewrite Hs in Hl.
      apply Nat.eqb_eq in Hl. simpl in Hl. lia. }
    intros k1 v1 k2 v2 H1 H2. now rewrite (Hlen _ _ H1), (Hlen _ _ H2).
Qed.

Lemma embedding_store_similarity (d : dict ndarray) (word1 word2 : string) :
  embedding_store d -> exists o, cosine_similarity word1 word2 d = Return o.
Proof.
  intros [Hwf Hdim].
  destruct (dict_get word1 d) as [a | ] eqn:Ha.
  - destruct (dict_get word2 d) as [b | ] eqn:Hb.
    + rewrite (cosine_similarity_present _ _ _ _ _ Ha Hb).
      rewrite (Hdim word1 a word2 b (dict_get_In _ _ _ Ha) (dict_get_In _ _ _ Hb)).
      rewrite Nat.eqb_refl. now eexists.
    + unfold cosine_similarity, contains. rewrite Ha, Hb. now eexists.
  - unfold cosine_similarity, contains. rewrite Ha. now eexists.
Qed.

Lemma embedding_store_ranking (d : dict ndarray) (word : string) (top_n : Z) :
  embedding_store d -> exists o, find_most_similar word d top_n = Return o.
Proof.
  intros Hd. destruct (dict_get word d) as [wv | ] eqn:Hw.
  - destruct (find_most_similar_ranking word wv d Hd Hw) as (ranked & _ & _ & Hr).
    rewrite Hr. now eexists.
  - unfold find_most_similar, contains. rewrite Hw. now eexists.
Qed.

(** X13. A file whose lines all have a word followed by the same number of
    float literals loads into an Embedding Store, and on the loaded store
    no call of [cosine_similarity] or [find_most_similar] raises. *)
Theorem loaded_store_answers (lines : list string) (n : nat) :
  forallb line_ok lines = true -> token_count n lines = true ->
  exists store,
    load_glove_model lines = Return store
    /\ embedding_store store
    /\ (forall word1 word2, exists o, cosine_similarity word1 word2 store = Return o)
    /\ (forall word top_n, exists o, find_most_similar word store top_n = Return o).
Proof.
  intros Hok Hn. destruct (load_loop_ok lines Hok []) as [store H].
  pose proof (load_embedding_store lines store n H Hn) as Hd.
  exists store. repeat split; try apply Hd; trivial.
  - intros word1 word2. now apply embedding_store_similarity.
  - intros word top_n. now apply embedding_store_ranking.
Qed.

Lemma loaded_store_answers_witness :
  exists store,
    load_glove_model lines_scenario = Return store
    /\ embedding_store store
    /\ (forall word1 word2, exists o, cosine_similarity word1 word2 store = Return o)
    /\ (forall word top_n, exists o, find_most_similar word store top_n = Return o).
Proof.
  apply (loaded_store_answers lines_scenario 3); reflexivity.
Defined.

(** ** The last cell *)

(** X14. On a file with a malformed line the cell prints the loader's first
    line only and stops with the loader's exception. *)
Theorem main_stops_on_bad_file (File : list string) :
  forallb line_ok File = false ->
  exists e, load_glove_model File = Raise e
            /\ main File [] = (["Loading GloVe Model"%string], Raise e).
Proof.
  intros H.
  assert (Hbad : exists line, In line File /\ line_ok line = false).
  { clear -H. induction File as [ | line File IH]; simpl in H; [discriminate | ].
    destruct (line_ok line) eqn:E.
    - destruct (IH H) as (l & Hin & Hl). exists l. split; [now right | exact Hl].
    - exists line. split; [now left | exact E]. }
  destruct Hbad as (line & Hin & Hline).
  destruct (load_loop_bad File line Hin Hline []) as [e He].
  exists e. split; [exact He | ].
  unfold main, load_glove_model_io, io_bind, print, lift. simpl. now rewrite He.
Qed.

Lemma main_stops_on_bad_file_witness :
  exists e, load_glove_model lines_blank = Raise e
            /\ main lines_blank [] = (["Loading GloVe Model"%string], Raise e).
Proof.
  apply (main_stops_on_bad_file lines_blank). reflexivity.
Defined.

Lemma report_pair_output (d : dict ndarray) (p : string * string) (out : stdout) :
  embedding_store d ->
  exists m, report_pair d p out = (out ++ [m], Return tt).
Proof.
  intros Hd. destruct p as [w1 w2]. unfold report_pair, io_bind, lift.
  destruct (embedding_store_similarity d w1 w2 Hd) as [o ->].
  destruct o as [x | ]; unfold print; eexists; reflexivity.
Qed.

Lemma report_pairs_output (d : dict ndarray) (ps : list (string * string)) :
  embedding_store d ->
  forall out, exists printed,
    for_each ps (report_pair d) out = (out ++ printed, Return tt)
    /\ List.length printed = List.length ps.
Proof.
  intros Hd. induction ps as [ | p ps IH]; intros out.
  - exists []. simpl. unfold io_return. now rewrite app_nil_r.
  - simpl. unfold io_bind.
    destruct (report_pair_output d p out Hd) as [m ->].
    destruct (IH (out ++ [m])) as (printed & -> & Hlen).
    exists (m :: printed). rewrite <- app_assoc. simpl. auto.
Qed.

Lemma report_item_output (item : string * score) (out : stdout) :
  has_float item -> exists m, report_item item out = (out ++ [m], Return tt).
Proof.
  destruct item as [w s]. intros [x Hx]. simpl in Hx. subst s.
  unfold report_item, io_bind, lift, print. simpl. eexists. reflexivity.
Qed.

Lemma print_ranking_output (r : list (string * score)) :
  Forall has_float r ->
  forall out, exists printed,
    for_each r report_item out = (out ++ printed, Return tt)
    /\ List.length printed = List.length r.
Proof.
  induction 1 as [ | item r Hitem Hr IH]; intros out.
  - exists []. simpl. unfold io_return. now rewrite app_nil_r.
  - simpl. unfold io_bind.
    destruct (report_item_output item out Hitem) as [m ->].
    destruct (IH (out ++ [m])) as (printed & -> & Hlen).
    exists (m :: printed). rewrite <- app_assoc. simpl. auto.
Qed.

Lemma report_word_output (d : dict ndarray) (word : string) :
  embedding_store d ->
  forall out, exists printed,
    report_word d word out = (out ++ printed, Return tt)
    /\ Z.of_nat (List.length printed) = word_report_size d word.
Proof.
  intros Hd out. unfold report_word, word_report_size, io_bind at 1, lift.
  destruct (dict_get word d) as [wv | ] eqn:Hw.
  - destruct (find_most_similar_ranking word wv d Hd Hw) as (ranked & _ & Hp & ->).
    assert (Hc : contains word d = true) by (apply contains_true; now exists wv).
    rewrite Hc. unfold io_bind, print.
    assert (Hf : Forall has_float (slice_to top_n_default ranked)).
    { apply Forall_forall. intros e He. apply slice_to_incl in He.
      apply (Permutation_in _ (Permutation_sym Hp)) in He.
      pose proof (candidates_have_float word wv d) as Hall.
      rewrite Forall_forall in Hall. now apply Hall. }
    match goal with
    | |- context [for_each _ _ (out ++ [?m])] =>
        destruct (print_ranking_output _ Hf (out ++ [m])) as (printed & -> & Hlen);
        exists (m :: printed); rewrite <- app_assoc; split; [reflexivity | ]
    end.
    simpl List.length. rewrite Nat2Z.inj_succ, Hlen.
    rewrite slice_to_length by (unfold top_n_default; lia).
    rewrite <- (Permutation_length Hp), (candidates_length word wv d (proj1 Hd) Hc). lia.
  - assert (Hc : contains word d = false) by now apply contains_false.
    unfold find_most_similar. rewrite Hc. simpl. unfold print.
    eexists. split; [reflexivity | reflexivity].
Qed.

Lemma report_words_output (d : dict ndarray) (ws : list string) :
  embedding_store d ->
  forall out, exists printed,
    for_each ws (report_word d) out = (out ++ printed, Return tt)
    /\ Z.of_nat (List.length printed) = fold_right Z.add 0 (map (word_report_size d) ws).
Proof.
  intros Hd. induction ws as [ | w ws IH]; intros out.
  - exists []. simpl. unfold io_return. now rewrite app_nil_r.
  - simpl. unfold io_bind at 1.
    destruct (report_word_output d w Hd out) as (p1 & -> & H1).
    destruct (IH (out ++ p1)) as (p2 & -> & H2).
    exists (p1 ++ p2). rewrite <- app_assoc. split; trivial.
    rewrite length_app, Nat2Z.inj_add. lia.
Qed.

Lemma load_glove_model_io_returns (File : list string) (store : dict ndarray) (out : stdout) :
  load_loop File [] = Return store ->
  load_glove_model_io File out
  = (out ++ ["Loading GloVe Model"%string;
             (decimal (vocabulary_size store) ++ " words loaded!")%string],
     Return store).
Proof.
  intros H. unfold load_glove_model_io, io_bind, print, lift, io_return. rewrite H.
  now rewrite <- app_assoc.
Qed.

(** X15. On a file whose lines all have a word followed by the same number
    of float literals the cell runs to its end.  It prints the loader's two
    lines, the second with the number of words of the store, then one line
    for each of the three pairs, and for each of the three words either one
    line, when the word is missing, or a heading and
    [min(5, vocabulary_size - 1)] ranked words. *)
Theorem main_output (File : list string) (n : nat) :
  forallb line_ok File = true -> token_count n File = true ->
  exists store reports,
    load_glove_model File = Return store
    /\ main File []
       = ("Loading GloVe Model"%string
            :: (decimal (vocabulary_size store) ++ " words loaded!")%string
            :: reports,
          Return tt)
    /\ Z.of_nat (List.length reports) = reports_size store.
Proof.
  intros Hok Hn. destruct (load_loop_ok File Hok []) as [store H].
  pose proof (load_embedding_store File store n H Hn) as Hd.
  unfold main, io_bind. rewrite (load_glove_model_io_returns File store [] H).
  destruct (report_pairs_output store pairs Hd
              ([] ++ ["Loading GloVe Model"%string;
                      (decimal (vocabulary_size store) ++ " words loaded!")%string]))
    as (p1 & -> & H1).
  destruct (report_words_output store words_to_check Hd
              (([] ++ ["Loading GloVe Model"%string;
                       (decimal (vocabulary_size store) ++ " words loaded!")%string]) ++ p1))
    as (p2 & -> & H2).
  exists store, (p1 ++ p2). split; [exact H | ]. split.
  - now rewrite <- app_assoc.
  - unfold reports_size. rewrite length_app, Nat2Z.inj_add. lia.
Qed.

Lemma main_output_witness :
  exists store reports,
    load_glove_model lines_scenario = Return store
    /\ main lines_scenario []
       = ("Loading GloVe Model"%string
            :: (decimal (vocabulary_size store) ++ " words loaded!")%string
            :: reports,
          Return tt)
    /\ Z.of_nat (List.length reports) = reports_size store.
Proof.
  apply (main_output lines_scenario 3); reflexivity.
Defined.

(** ** Extending a file *)

(** X16. Lines added at the end of a file leave the earlier words in place
    and only add words behind them, and they leave the vector of every
    word they do not mention unchanged. *)
Theorem load_extension (l1 l2 : list string) (s1 s2 : dict ndarray) :
  load_glove_model l1 = Return s1 -> load_glove_model (l1 ++ l2) = Return s2 ->
  (exists added, keys s2 = keys s1 ++ added)
  /\ (forall w, ~ In w (line_words l2) -> getitem s2 w = getitem s1 w).
Proof.
  unfold load_glove_model. rewrite load_loop_app. intros -> H. simpl in H. split.
  - eexists. apply (load_loop_keys l2 s1 s2 H).
  - intros w Hw. unfold getitem.
    rewrite (load_loop_other_words l2 w) with (d := s1) (d' := s2);
      [reflexivity | | exact H].
    intros line Hin Hline. apply Hw, line_words_In. now exists line.
Qed.

Lemma load_extension_witness :
  (exists added, keys [("a"%string, vec [1; 0]); ("b"%string, vec [1])]
                 = keys [("a"%string, vec [1; 0])] ++ added)
  /\ (forall w, ~ In w (line_words [text_line "b 1"]) ->
                getitem [("a"%string, vec [1; 0]); ("b"%string, vec [1])] w
                = getitem [("a"%string, vec [1; 0])] w).
Proof.
  apply (load_extension [text_line "a 1 0"] [text_line "b 1"]); reflexivity.
Defined.

(** ** Printed scores *)

Lemma digit_of_digit_char (k : Z) :
  0 <= k <= 9 -> Py.digit_of (digit_char k) = Some k.
Proof.
  intros H.
  assert (E : k = 0 \/ k = 1 \/ k = 2 \/ k = 3 \/ k = 4 \/ k = 5 \/ k = 6
              \/ k = 7 \/ k = 8 \/ k = 9) by lia.
  repeat destruct E as [-> | E]; try reflexivity. now subst.
Qed.

Lemma digits_tail_digit (c : ascii) (s : string) (acc cnt d : Z) :
  Py.digit_of c = Some d ->
  Py.digits_tail acc cnt (String c s) = Py.digits_tail (10 * acc + d) (cnt + 1) s.
Proof. intros H. simpl. now rewrite H. Qed.

Lemma digits_tail_uint (u : Decimal.uint) (rest : string) :
  forall acc cnt,
    Py.digits_tail acc cnt (NilEmpty.string_of_uint u ++ rest)
    = Py.digits_tail (uint_value u acc) (cnt + Z.of_nat (Decimal.nb_digits u)) rest.
Proof.
  induction u as [ | u IH | u IH | u IH | u IH | u IH | u IH | u IH | u IH | u IH | u IH];
    intros acc cnt;
    cbn [NilEmpty.string_of_uint String.append uint_value Decimal.nb_digits].
  1: now rewrite Z.add_0_r.
  all: match goal with
       | |- context [Py.digits_tail ?a ?n (String ?c ?s)] =>
           let d := eval vm_compute in (Py.digit_of c) in
           match d with
           | Some ?k => rewrite (digits_tail_digit c s a n k eq_refl)
           end
       end; rewrite IH.
  all: f_equal; try lia; f_equal; lia.
Qed.

Lemma uint_value_acc (u : Decimal.uint) (p : positive) :
  Zpos (Pos.of_uint_acc u p) = uint_value u (Zpos p).
Proof.
  revert p. induction u as [ | u IH | u IH | u IH | u IH | u IH | u IH | u IH | u IH
                             | u IH | u IH]; intros p;
    cbn [Pos.of_uint_acc uint_value]; trivial;
    rewrite IH; f_equal; lia.
Qed.

Lemma uint_value_of_uint (u : Decimal.uint) : Z.of_N (Pos.of_uint u) = uint_value u 0.
Proof.
  induction u as [ | u IH | u IH | u IH | u IH | u IH | u IH | u IH | u IH | u IH | u IH];
    cbn [Pos.of_uint uint_value Z.of_N]; trivial;
    rewrite uint_value_acc; f_equal.
Qed.

Lemma uint_value_to_uint (n : Z) : 0 <= n -> uint_value (N.to_uint (Z.to_N n)) 0 = n.
Proof.
  intros H. rewrite <- uint_value_of_uint.
  change (Pos.of_uint (N.to_uint (Z.to_N n))) with (N.of_uint (N.to_uint (Z.to_N n))).
  rewrite DecimalN.Unsigned.of_to. lia.
Qed.

Lemma to_uint_not_nil (n : N) : N.to_uint n <> Decimal.Nil.
Proof.
  destruct n as [ | p]; simpl; [discriminate | apply DecimalPos.Unsigned.to_uint_nonnil].
Qed.

(** Reading the numeral of [n] in front of a point. *)
Lemma digitpart_decimal (n : Z) (rest : string) :
  0 <= n ->
  exists cnt, Py.digitpart 0 0 (decimal n ++ String "." rest)
              = Some (n, cnt, String "." rest).
Proof.
  intros H. unfold decimal.
  pose proof (to_uint_not_nil (Z.to_N n)) as Hnil.
  pose proof (uint_value_to_uint n H) as Hval.
  assert (E : NilZero.string_of_uint (N.to_uint (Z.to_N n))
              = NilEmpty.string_of_uint (N.to_uint (Z.to_N n))).
  { destruct (N.to_uint (Z.to_N n)); trivial. congruence. }
  rewrite E.
  assert (Hd : forall u acc cnt, u <> Decimal.Nil ->
            Py.digitpart acc cnt (NilEmpty.string_of_uint u ++ String "." rest)
            = Some (Py.digits_tail acc cnt (NilEmpty.string_of_uint u ++ String "." rest))).
  { intros u acc cnt Hu. destruct u; [congruence | reflexivity ..]. }
  rewrite (Hd _ 0 0 Hnil), digits_tail_uint, Hval. eexists. reflexivity.
Qed.

Lemma number_fixed_4 (n : Z) :
  0 <= n -> Py.number (fixed_4 n) = Some (n, 4, EmptyString).
Proof.
  intros H. unfold Py.number, fixed_4.
  destruct (digitpart_decimal (n / 10000)
              (String (digit_char (n mod 10000 / 1000))
                 (String (digit_char (n mod 10000 / 100 mod 10))
                    (String (digit_char (n mod 10000 / 10 mod 10))
                       (String (digit_char (n mod 10000 mod 10)) EmptyString)))))
    as [cnt E]; [apply Z.div_pos; lia | ].
  rewrite E. cbv iota beta. unfold Py.digitpart.
  rewrite digit_of_digit_char by (Z.div_mod_to_equations; lia).
  rewrite digits_tail_digit with (d := n mod 10000 / 100 mod 10)
    by (apply digit_of_digit_char; Z.div_mod_to_equations; lia).
  rewrite digits_tail_digit with (d := n mod 10000 / 10 mod 10)
    by (apply digit_of_digit_char; Z.div_mod_to_equations; lia).
  rewrite digits_tail_digit with (d := n mod 10000 mod 10)
    by (apply digit_of_digit_char; Z.div_mod_to_equations; lia).
  cbn [Py.digits_tail]. f_equal. f_equal. f_equal.
  Z.div_mod_to_equations. lia.
Qed.

Lemma digit_first (c : ascii) (s : string) (d : Z) :
  Py.digit_of c = Some d ->
  Py.signed (String c s) = (false, String c s)
  /\ String.eqb (Py.lowercase (String c s)) "inf" = false
  /\ String.eqb (Py.lowercase (String c s)) "infinity" = false
  /\ String.eqb (Py.lowercase (String c s)) "nan" = false.
Proof.
  destruct c as [[ | ] [ | ] [ | ] [ | ] [ | ] [ | ] [ | ] [ | ]];
    try (intros H; vm_compute in H; discriminate); intros _; repeat split.
Qed.

Lemma fixed_4_first (n : Z) :
  exists c s d, fixed_4 n = String c s /\ Py.digit_of c = Some d.
Proof.
  unfold fixed_4, decimal.
  pose proof (to_uint_not_nil (Z.to_N (n / 10000))) as Hnil.
  destruct (N.to_uint (Z.to_N (n / 10000))); [congruence | ..];
    cbn [NilZero.string_of_uint NilEmpty.string_of_uint String.append];
    do 3 eexists; (split; [reflexivity | reflexivity]).
Qed.

Lemma float_fixed_4 (s : bool) (n : Z) :
  0 <= n ->
  Py.float (sign_text s ++ fixed_4 n) = Some (Py.of_decimal 53 1024 s n (0 - 4)).
Proof.
  intros H. destruct (fixed_4_first n) as (c & t & d & E & Hd).
  destruct (digit_first c t d Hd) as (Hs & H1 & H2 & H3).
  unfold Py.float.
  assert (Es : Py.signed (sign_text s ++ fixed_4 n) = (s, fixed_4 n)).
  { destruct s; [reflexivity | ]. cbn [sign_text String.append]. now rewrite E. }
  rewrite Es, E, H1, H2, H3, <- E. cbn [orb].
  now rewrite (number_fixed_4 n H).
Qed.

Lemma scaled_4f_spec (m : positive) (e : Z) :
  let n := if 0 <=? e then Zpos m * 2 ^ e else Zpos m in
  let d := if 0 <=? e then 1 else 2 ^ (- e) in
  0 < d /\ 0 <= scaled_4f m e /\ 2 * Z.abs (n * 10000 - scaled_4f m e * d) <= d.
Proof.
  intros n d. unfold scaled_4f. fold n. fold d.
  assert (Hd : 0 < d).
  { unfold d. destruct (Z.leb_spec 0 e); [lia | apply Z.pow_pos_nonneg; lia]. }
  assert (Hn : 0 <= n).
  { unfold n. destruct (Z.leb_spec 0 e); [ | lia].
    apply Z.mul_nonneg_nonneg; [lia | apply Z.pow_nonneg; lia]. }
  pose proof (Z.div_mod (n * 10000) d ltac:(lia)) as Hdm.
  pose proof (Z.mod_pos_bound (n * 10000) d Hd) as Hr.
  assert (Hq : 0 <= n * 10000 / d) by (apply Z.div_pos; lia).
  set (q := n * 10000 / d) in *. set (r := (n * 10000) mod d) in *.
  split; trivial.
  destruct (Z.ltb_spec d (2 * r)); cbn [orb andb].
  - split; [lia | ]. nia.
  - destruct (Z.eqb_spec d (2 * r)); cbn [orb andb]; [destruct (Z.odd q) | ];
      split; try lia; nia.
Qed.

Lemma value_ratio (m : positive) (e : Z) :
  let n := if 0 <=? e then Zpos m * 2 ^ e else Zpos m in
  let d := if 0 <=? e then 1 else 2 ^ (- e) in
  (F32Facts.value (S754_finite false m e) * inject_Z d == inject_Z n)%Q.
Proof.
  intros n d. unfold n, d, F32Facts.value. destruct (Z.leb_spec 0 e).
  - unfold Qeq. simpl. lia.
  - assert (Hd : 0 < 2 ^ (- e)) by (apply Z.pow_pos_nonneg; lia).
    unfold Qeq, Qmult, inject_Z. cbn [Qnum Qden]. rewrite Pos.mul_1_r.
    rewrite Z2Pos.id by exact Hd. lia.
Qed.

Lemma scaled_4f_nearest (m : positive) (e : Z) :
  (Qabs (F32Facts.value (S754_finite false m e) * inject_Z 10000
         - inject_Z (scaled_4f m e)) <= 1 # 2)%Q.
Proof.
  destruct (scaled_4f_spec m e) as (Hd & _ & Hnear).
  pose proof (value_ratio m e) as Hv. cbv zeta in Hv, Hnear.
  set (n := if 0 <=? e then Zpos m * 2 ^ e else Zpos m) in *.
  set (d := if 0 <=? e then 1 else 2 ^ (- e)) in *.
  set (N := scaled_4f m e) in *.
  set (V := F32Facts.value (S754_finite false m e)) in *.
  assert (Hd' : (0 < inject_Z d)%Q).
  { change 0%Q with (inject_Z 0). rewrite <- Zlt_Qlt. exact Hd. }
  assert (Hlo : (- inject_Z d <= 2 * (inject_Z n * inject_Z 10000 - inject_Z N * inject_Z d))%Q).
  { rewrite <- !inject_Z_mult, <- inject_Z_opp.
    change 2%Q with (inject_Z 2).
    unfold Qminus. rewrite <- inject_Z_opp, <- inject_Z_plus, <- inject_Z_mult.
    rewrite <- Zle_Qle. lia. }
  assert (Hhi : (2 * (inject_Z n * inject_Z 10000 - inject_Z N * inject_Z d) <= inject_Z d)%Q).
  { rewrite <- !inject_Z_mult.
    change 2%Q with (inject_Z 2).
    unfold Qminus. rewrite <- inject_Z_opp, <- inject_Z_plus, <- inject_Z_mult.
    rewrite <- Zle_Qle. lia. }
  apply Qabs_Qle_condition.
  set (D := inject_Z d) in *. set (K := inject_Z 10000) in *.
  assert (E : ((V * K - inject_Z N) * D == inject_Z n * K - inject_Z N * D)%Q).
  { rewrite <- Hv. ring. }
  rewrite <- E in Hlo, Hhi.
  split; nra.
Qed.

(** X17. A finite score is printed as a numeral that [float()] reads back:
    the text is the sign and the decimal numeral of [N / 10^4], where [N]
    is an integer within one half of the score's magnitude times [10^4]. *)
Theorem format_4f_reads_back (s : bool) (m : positive) (e : Z) :
  exists N,
    0 <= N
    /\ format_4f (S754_finite s m e) = (sign_text s ++ fixed_4 N)%string
    /\ Py.float (format_4f (S754_finite s m e)) = Some (Py.of_decimal 53 1024 s N (0 - 4))
    /\ (Qabs (F32Facts.value (S754_finite false m e) * inject_Z 10000 - inject_Z N)
        <= 1 # 2)%Q.
Proof.
  exists (scaled_4f m e).
  destruct (scaled_4f_spec m e) as (_ & Hn & _).
  repeat split; trivial.
  - cbn [format_4f]. now apply float_fixed_4.
  - apply scaled_4f_nearest.
Qed.

(** X18. On an Embedding Store, a query for a present word with a
    positive [top_n] returns exactly [min(top_n, vocabulary_size - 1)]
    pairs, none of them for the query word, each with the score that
    [cosine_similarity] gives the pair; when [top_n] is not below the
    number of candidates every other word of the store is among them; and
    the pairs are in non-increasing order of score provided no candidate's
    score is NaN. *)
Theorem find_most_similar_ranked (store : dict ndarray) (word : string) (top_n : Z) :
  embedding_store store -> contains word store = true -> 0 < top_n ->
  exists r,
    find_most_similar word store top_n = Return (Some r)
    /\ Z.of_nat (List.length r) = Z.min top_n (vocabulary_size store - 1)
    /\ ~ In word (map fst r)
    /\ (forall w s, In (w, s) r -> cosine_similarity word w store = Return s)
    /\ (vocabulary_size store - 1 <= top_n ->
        forall w, w <> word -> contains w store = true -> In w (map fst r))
    /\ (nan_free word store = true -> ranked_result word store top_n r).
Proof.
  intros Hd Hin Hpos. pose proof Hin as Hin'.
  apply contains_true in Hin' as [wv Hw].
  destruct (find_most_similar_spec word wv store top_n Hd Hw) as (ranked & Hr & Hp & Hs).
  pose proof (candidates_length word wv store (proj1 Hd) Hin) as Hlen.
  rewrite (Permutation_length Hp) in Hlen.
  assert (Hlen' : Z.of_nat (List.length (slice_to top_n ranked))
                  = Z.min top_n (vocabulary_size store - 1)).
  { rewrite slice_to_length by lia. now rewrite Hlen. }
  assert (Hnot : ~ In word (map fst (slice_to top_n ranked))).
  { intros H. apply in_map_iff in H as ([w s] & E & H). simpl in E. subst w.
    apply slice_to_incl in H. apply (Permutation_in _ (Permutation_sym Hp)) in H.
    now destruct (candidate_score word word s wv store Hd Hw H) as [Hne _]. }
  exists (slice_to top_n ranked). repeat split; trivial.
  - intros w s H. apply slice_to_incl in H.
    apply (Permutation_in _ (Permutation_sym Hp)) in H.
    now destruct (candidate_score word w s wv store Hd Hw H) as (_ & _ & x & _ & Hc).
  - intros Hall w Hne Hw'. rewrite slice_to_all by lia.
    apply (Permutation_in _ (Permutation_map fst Hp)).
    rewrite candidates_keys. apply filter_In. split.
    + apply contains_true in Hw' as [x Hx]. apply dict_get_In in Hx.
      now apply (in_map fst) in Hx.
    + apply negb_true_iff. now apply String.eqb_neq.
  - unfold slice_to. apply firstn_sorted, Hs. now apply nan_free_plain.
Qed.

Lemma find_most_similar_ranked_witness :
  exists r,
    find_most_similar "cat" store_3d 5 = Return (Some r)
    /\ Z.of_nat (List.length r) = Z.min 5 (vocabulary_size store_3d - 1)
    /\ ~ In "cat"%string (map fst r)
    /\ (forall w s, In (w, s) r -> cosine_similarity "cat" w store_3d = Return s)
    /\ (vocabulary_size store_3d - 1 <= 5 ->
        forall w, w <> "cat"%string -> contains w store_3d = true -> In w (map fst r))
    /\ (nan_free "cat" store_3d = true -> ranked_result "cat" store_3d 5 r).
Proof.
  apply (find_most_similar_ranked store_3d "cat" 5).
  - apply embedding_storeb_ok. reflexivity.
  - reflexivity.
  - lia.
Defined.
